(** * Geospatial matching and coordination: a shallow embedding

    The TypeScript sources of the dashboard and the coordination engine
    described by the design document are embedded as Rocq functions.

    Numbers.  A JavaScript [number] that goes through [Math.sin],
    [Math.cos], [Math.sqrt] or [Math.atan2] is modelled as a real number
    (rounding, NaN and the infinities are outside the model); a number that
    is only compared with constants (a severity, an earthquake magnitude) is
    modelled as a rational, so that the code can be run. *)

From Stdlib Require Import String.
From Stdlib Require Import Reals Lra Lia ZArith QArith Qround List Bool Arith.
From Stdlib Require Import Permutation Sorted.
From Stdlib Require Lqa.
From Stdlib Require DecimalString.
Import ListNotations.

(** ** GeoMath: the Haversine helper of the SOS socket hook *)

Module GeoMath.
Local Open Scope R_scope.

(** [Math.atan2(y, x)] on finite arguments, quadrant by quadrant. *)
Definition atan2 (y x : R) : R :=
  if Rlt_dec 0 x then atan (y / x)
  else if Rlt_dec x 0 then
         (if Rle_dec 0 y then atan (y / x) + PI else atan (y / x) - PI)
       else if Rlt_dec 0 y then PI / 2
            else if Rlt_dec y 0 then - (PI / 2)
                 else 0.

(** [function toRad(deg) { return deg * (Math.PI / 180); }] *)
Definition toRad (deg : R) : R := deg * (PI / 180).

(** The intermediate [a] of [calculateDistance]. *)
Definition haversineA (lat1 lon1 lat2 lon2 : R) : R :=
  let dLat := toRad (lat2 - lat1) in
  let dLon := toRad (lon2 - lon1) in
  sin (dLat / 2) * sin (dLat / 2) +
  cos (toRad lat1) * cos (toRad lat2) *
  sin (dLon / 2) * sin (dLon / 2).

(** [function calculateDistance(lat1, lon1, lat2, lon2): number] *)
Definition calculateDistance (lat1 lon1 lat2 lon2 : R) : R :=
  let R := 6371 in
  let a := haversineA lat1 lon1 lat2 lon2 in
  let c := 2 * atan2 (sqrt a) (sqrt (1 - a)) in
  R * c.

(** What a call can do: return a number or throw.  [calculateDistance] has
    no [throw] and calls only total [Math] functions, so every call returns.  *)
Inductive GeoError : Type := InvalidCoordinate.

Inductive Outcome : Type :=
| Returns (d : R)
| Throws (e : GeoError).

Definition calculateDistanceCall (lat1 lon1 lat2 lon2 : R) : Outcome :=
  Returns (calculateDistance lat1 lon1 lat2 lon2).

(** The data model's range of a geographic point. *)
Definition validPoint (lat lon : R) : Prop :=
  -90 <= lat <= 90 /\ -180 <= lon <= 180.

(** Two in-range points denote one place: same latitude, and either the
    latitude is a pole or the longitudes agree up to a full turn. *)
Definition samePlace (lat1 lon1 lat2 lon2 : R) : Prop :=
  lat1 = lat2 /\
  (lat1 = 90 \/ lat1 = -90 \/
   lon2 - lon1 = 0 \/ lon2 - lon1 = 360 \/ lon2 - lon1 = -360).

(** A geographic point of the data model. *)
Record GeoPoint : Type := mkGeoPoint { latitude : R; longitude : R }.

(** [distanceKm] of the coordination core: the Haversine helper applied to
    two points.  Points of the data model are in range by invariant. *)
Definition distanceKm (a b : GeoPoint) : R :=
  calculateDistance (latitude a) (longitude a) (latitude b) (longitude b).

(** The point [km] kilometres due north of the origin of coordinates. *)
Definition northOf (km : R) : GeoPoint :=
  mkGeoPoint (km * 180 / (6371 * PI)) 0.

Definition origin : GeoPoint := mkGeoPoint 0 0.

(** Comparisons of numbers as the booleans the code branches on. *)
Definition Rleb (x y : R) : bool := if Rle_dec x y then true else false.
Definition Rltb (x y : R) : bool := if Rlt_dec x y then true else false.
Definition Reqb (x y : R) : bool := if Req_dec_T x y then true else false.

End GeoMath.

(** ** The nearby-alerts hook of the SOS socket *)

Module SOSSocket.
Import GeoMath.
Local Open Scope R_scope.

Inductive AlertType : Type :=
| new_sos | status_update | resource_assigned | resolved.

Record SOSAlert : Type := mkSOSAlert {
  id : Z;
  sos_report_id : Z;
  alert_type : AlertType;
  message : string;
  broadcast_scope : string;
  latitude : R;
  longitude : R;
  timestamp : string
}.

(** [prev.slice(0, 99)] *)
Definition slice99 (prev : list SOSAlert) : list SOSAlert := firstn 99 prev.

(** The [onAlert] callback that [useNearbySOSAlerts] hands to the socket:
    [prev] is the hook's [alerts] state, the result is its next value. *)
Definition onAlert (latitude0 longitude0 radiusKm : R)
    (alert : SOSAlert) (prev : list SOSAlert) : list SOSAlert :=
  let distance :=
    calculateDistance latitude0 longitude0 (latitude alert) (longitude alert) in
  if Rle_dec distance radiusKm then alert :: slice99 prev else prev.

(** The [alerts] returned by the hook after the socket has delivered
    [incoming] (oldest first), starting from [useState([])]. *)
Definition useNearbySOSAlerts (latitude0 longitude0 radiusKm : R)
    (incoming : list SOSAlert) : list SOSAlert :=
  fold_left (fun prev alert => onAlert latitude0 longitude0 radiusKm alert prev)
            incoming [].

(** What every state of the hook satisfies: at most 100 alerts, each within
    the radius of the subscription point. *)
Definition withinBounds (latitude0 longitude0 radiusKm : R)
    (st : list SOSAlert) : Prop :=
  (length st <= 100)%nat /\
  Forall (fun a =>
            calculateDistance latitude0 longitude0 (latitude a) (longitude a)
            <= radiusKm) st.

End SOSSocket.

(** ** The USGS earthquake feed service *)

Module UsgsService.
Local Open Scope Q_scope.

Inductive SeverityLevel : Type := low | moderate | high | critical.
Inductive DisasterType : Type := earthquake | tsunami.
Inductive DisasterStatus : Type := active | monitoring | resolved.

(** What the feed delivers.  The TypeScript interface is a cast, not a
    check, so every part that the code dereferences may be missing. *)
Record Properties : Type := mkProperties {
  mag : option Q;            (* [None]: null, [toFixed] is not callable *)
  place : option string;     (* [None]: null *)
  time : option Z;           (* [None]: not a valid date *)
  tsunamiFlag : Z;
  title : string
}.

Record USGSFeature : Type := mkFeature {
  fid : string;
  properties : option Properties;
  geometry : option (Q * Q)  (* [lng, lat] of [coordinates] *)
}.

Record Disaster : Type := mkDisaster {
  id : string;
  type : DisasterType;
  name : string;
  location : string;
  lat : Q;
  lng : Q;
  severity : SeverityLevel;
  magnitude : option Q;
  affectedPopulation : Z;
  deployedTeams : Z;
  timestamp : string;
  description : string;
  status : DisasterStatus
}.

(** Exceptions of the function body, and the monad that threads them. *)
Inductive Exn : Type :=
| NetworkFailure
| ApiError (httpStatus : Z)
| SyntaxError
| TypeError
| RangeError.

Inductive Try (A : Type) : Type :=
| Ok (a : A)
| Throw (e : Exn).
Arguments Ok {A} a.
Arguments Throw {A} e.

Definition bind {A B : Type} (m : Try A) (k : A -> Try B) : Try B :=
  match m with
  | Ok a => k a
  | Throw e => Throw e
  end.

Notation "x <- m ;; k" := (bind m (fun x => k))
  (at level 61, m at next level, right associativity).

Definition orThrow {A : Type} (o : option A) (e : Exn) : Try A :=
  match o with
  | Some a => Ok a
  | None => Throw e
  end.

(** [null >= n] compares [0] with [n]. *)
Definition numberOf (m : option Q) : Q :=
  match m with Some q => q | None => 0 end.

Definition mapSeverity (mag : Q) : SeverityLevel :=
  if Qle_bool 7 mag then critical
  else if Qle_bool (11 # 2) mag then high
  else if Qle_bool 4 mag then moderate
  else low.

(** [rnd] is the value drawn by [Math.random()]. *)
Definition estimateAffected (mag rnd : Q) : Z :=
  if Qle_bool 7 mag then Qfloor (100000 + rnd * 500000)
  else if Qle_bool (11 # 2) mag then Qfloor (10000 + rnd * 50000)
  else if Qle_bool 4 mag then Qfloor (1000 + rnd * 10000)
  else Qfloor (100 + rnd * 2000).

Definition severityActive (s : SeverityLevel) : bool :=
  match s with critical | high => true | _ => false end.

(** A feature that the mapping callback can process without throwing. *)
Definition wellFormed (f : USGSFeature) : bool :=
  match geometry f, properties f with
  | Some _, Some p =>
      match mag p, time p with
      | Some _, Some _ => true
      | _, _ => false
      end
  | _, _ => false
  end.

Section Feed.

(** Library formatting: [n.toFixed(1)], [new Date(t).toISOString()], and
    the stream of [Math.random()] draws. *)
Variable toFixed1 : Q -> string.
Variable toISOString : Z -> string.
Variable random : nat -> Q.

(** The arrow function given to [map], for the feature at index [i]. *)
Definition toDisaster (i : nat) (f : USGSFeature) : Try Disaster :=
  c <- orThrow (geometry f) TypeError ;;
  p <- orThrow (properties f) TypeError ;;
  let m := mag p in
  let sev := mapSeverity (numberOf m) in
  let tsu := negb (Z.eqb (tsunamiFlag p) 0) in
  let affected := estimateAffected (numberOf m) (random (2 * i)) in
  let teams := (Qfloor (random (2 * i + 1) * 20) + 2)%Z in
  t <- orThrow (time p) RangeError ;;
  shown <- orThrow m TypeError ;;
  Ok {| id := String.append "usgs-" (fid f);
        type := if tsu then tsunami else earthquake;
        name := title p;
        location := match place p with
                    | Some s => match s with
                                | EmptyString => "Unknown"%string
                                | _ => s
                                end
                    | None => "Unknown"%string
                    end;
        lat := snd c;
        lng := fst c;
        severity := sev;
        magnitude := m;
        affectedPopulation := affected;
        deployedTeams := teams;
        timestamp := toISOString t;
        description :=
          String.append "M"
            (String.append (toFixed1 shown)
               (String.append " earthquake detected. "
                  (String.append
                     (if tsu then "Tsunami risk flagged." else "No tsunami risk.")
                     " USGS live data.")));
        status := if severityActive sev then active else monitoring |}.

(** [Array.prototype.map] with a callback that may throw. *)
Fixpoint mapFrom (i : nat) (fs : list USGSFeature) : Try (list Disaster) :=
  match fs with
  | [] => Ok []
  | f :: rest =>
      d <- toDisaster i f ;;
      ds <- mapFrom (S i) rest ;;
      Ok (d :: ds)
  end.

(** What [fetch] and [res.json()] can do. *)
Record Response : Type := mkResponse {
  ok : bool;
  httpStatus : Z;
  json : option (option (list USGSFeature))
  (* [None]: the body is not JSON; [Some None]: no [features] array *)
}.

Inductive Fetched : Type :=
| Rejected
| Resolved (res : Response).

(** The body of the [try] block. *)
Definition fetchBody (net : Fetched) : Try (list Disaster) :=
  match net with
  | Rejected => Throw NetworkFailure
  | Resolved res =>
      if negb (ok res) then Throw (ApiError (httpStatus res))
      else
        data <- orThrow (json res) SyntaxError ;;
        features <- orThrow data TypeError ;;
        mapFrom 0 (firstn 15 features)
  end.

(** [export async function fetchUSGSEarthquakes(): Promise<Disaster[]>]:
    the value the returned promise resolves to. *)
Definition fetchUSGSEarthquakes (net : Fetched) : list Disaster :=
  match fetchBody net with
  | Ok ds => ds
  | Throw _ => []
  end.

End Feed.

(** Sample feed data: a complete feature of magnitude [m], and one without
    [geometry]. *)
Definition sampleFeature (m : Q) : USGSFeature :=
  mkFeature "ak0251"
    (Some (mkProperties (Some m) (Some "10 km N of Somewhere"%string)
                        (Some 1700000000000%Z) 0 "Sample quake"))
    (Some (-150 # 1, 61 # 1)).

Definition brokenFeature : USGSFeature :=
  mkFeature "broken"
    (Some (mkProperties (Some 5) None (Some 0%Z) 0 "No geometry"))
    None.

Definition sampleFetch (fs : list USGSFeature) : list Disaster :=
  fetchUSGSEarthquakes (fun _ => "0.0"%string) (fun _ => "1970"%string)
    (fun _ => 1 # 2) (Resolved (mkResponse true 200 (Some (Some fs)))).

End UsgsService.

(** ** The coordination core

    The services that implement dispatch, clustering, offer ranking and
    broadcast scope are not among the TypeScript sources (the front end
    calls them over HTTP); each is modelled from its design section. *)

(** Modelled from the spec: the records of section 3, which the services
    exchange; their back-end declarations are not among the sources. *)
Module DataModel.
Import GeoMath.

Inductive ResourceType : Type := ambulance | drone | rescue_team | fire_truck.
Inductive ResourceStatus : Type := available | busy | offline.

Record Resource : Type := mkResource {
  resourceId : Z;
  resourceType : ResourceType;
  resourceStatus : ResourceStatus;
  resourceLocation : GeoPoint;
  speedKmh : option R
}.

Inductive EmergencyType : Type :=
| medical | accident | fire | flooding | trapped | missing | other.

Inductive IncidentStatus : Type :=
| pending | acknowledged | in_progress | resolved | cancelled.

Record Incident : Type := mkIncident {
  incidentId : Z;
  incidentLocation : GeoPoint;
  severity : Q;
  emergencyType : EmergencyType;
  reportedAt : Z;
  incidentStatus : IncidentStatus
}.

Inductive AssistanceType : Type :=
| medical_knowledge | transportation | shelter | supplies
| communication | physical_help | other_help.

Record AssistanceOffer : Type := mkOffer {
  offerId : Z;
  offerIncidentId : Z;
  helperLocation : GeoPoint;
  assistanceType : AssistanceType;
  isVerified : bool;
  rating : option Q;
  offeredAt : Z;
  acceptedAt : option Z
}.

Definition resourceType_eqb (a b : ResourceType) : bool :=
  match a, b with
  | ambulance, ambulance | drone, drone
  | rescue_team, rescue_team | fire_truck, fire_truck => true
  | _, _ => false
  end.

Definition isAvailable (r : Resource) : bool :=
  match resourceStatus r with available => true | _ => false end.

End DataModel.

(** *** AlertScopeResolver *)

Module AlertScopeResolver.
Local Open Scope Q_scope.

Inductive Scope : Type := immediate | district | state | national.

Record BroadcastScope : Type := mkBroadcastScope {
  scope : Scope;
  estimatedRecipients : Z
}.

(** Modelled from the spec: the alert-broadcast service that picks a scope is
    not among the sources; this is the audience column of the table of
    section 4.5. *)
Definition recipientsOf (s : Scope) : Z :=
  match s with
  | immediate => 500
  | district => 50000
  | state => 500000
  | national => 5000000
  end.

(** Modelled from the spec: the severity column of the same table (the
    service is not among the sources), lower bounds inclusive, the top tier
    open-ended. *)
Definition scopeOf (severity : Q) : Scope :=
  if Qle_bool 10 severity then national
  else if Qle_bool 8 severity then state
  else if Qle_bool 5 severity then district
  else immediate.

(** Modelled from the spec: [resolveScope(severity) -> BroadcastScope] of
    section 4.5, whose code is not among the sources. *)
Definition resolveScope (severity : Q) : BroadcastScope :=
  let s := scopeOf severity in
  mkBroadcastScope s (recipientsOf s).

(** Modelled from the spec: [ResolveBroadcastScope(severity, manualOverride?)]
    of section 6, whose code is not among the sources; an override wins and
    carries the estimate of its own tier. *)
Definition resolveBroadcastScope (severity : Q) (manualOverride : option Scope)
  : BroadcastScope :=
  match manualOverride with
  | Some s => mkBroadcastScope s (recipientsOf s)
  | None => resolveScope severity
  end.

End AlertScopeResolver.

(** *** ResourceSelector *)

Module ResourceSelector.
Import GeoMath DataModel.
Local Open Scope R_scope.

Record Config : Type := mkConfig {
  nominalSpeed : ResourceType -> R;
  highSeverityThreshold : Q
}.

Definition defaultConfig : Config :=
  mkConfig (fun t => match t with
                     | ambulance => 60
                     | drone => 80
                     | rescue_team => 40
                     | fire_truck => 50
                     end)
           7%Q.

Record DispatchDecision : Type := mkDecision {
  decidedResource : Z;
  decidedDistanceKm : R;
  estimatedArrivalMinutes : R;
  rationale : string
}.

Inductive DispatchResult : Type :=
| Dispatch (d : DispatchDecision)
| NoResourceAvailable.

(** Modelled from the spec: the dispatch service behind [/dispatch/auto] is
    not among the sources.  The position of a type in [typePriority]; a type
    that is absent comes after every listed one (section 4.2, step 4). *)
Fixpoint typeIndex (t : ResourceType) (l : list ResourceType) : nat :=
  match l with
  | [] => O
  | u :: rest => if resourceType_eqb t u then O else S (typeIndex t rest)
  end.

Definition typeRank (typePriority : option (list ResourceType))
    (t : ResourceType) : nat :=
  match typePriority with
  | None => O
  | Some l => typeIndex t l
  end.

(** A candidate with the quantities of steps 2 to 4. *)
Record Scored : Type := mkScored {
  candidate : Resource;
  rank : nat;
  dist : R
}.

Definition score (incident : Incident)
    (typePriority : option (list ResourceType)) (r : Resource) : Scored :=
  mkScored r (typeRank typePriority (resourceType r))
           (distanceKm (resourceLocation r) (incidentLocation incident)).

(** Modelled from the spec: the scoring of the dispatch service, which is
    not among the sources: [a] beats [b] on type-priority group, then on
    distance, then on the lower id (section 4.2, steps 4 and 5). *)
Definition prefer (a b : Scored) : bool :=
  Nat.ltb (rank a) (rank b)
  || (Nat.eqb (rank a) (rank b)
      && (Rltb (dist a) (dist b)
          || (Reqb (dist a) (dist b)
              && Z.ltb (resourceId (candidate a)) (resourceId (candidate b))))).

Fixpoint pickBest (current : Scored) (rest : list Scored) : Scored :=
  match rest with
  | [] => current
  | c :: cs => pickBest (if prefer c current then c else current) cs
  end.

Definition typeName (t : ResourceType) : string :=
  match t with
  | ambulance => "ambulance"
  | drone => "drone"
  | rescue_team => "rescue_team"
  | fire_truck => "fire_truck"
  end.

(** Modelled from the spec: the eligibility rule of section 4.2, step 4, of
    the dispatch service, which is not among the sources.  Without a
    priority list every type is eligible; with one, the listed types are,
    and every type once the severity of the incident reaches the
    high-severity threshold of the configuration. *)
Definition listed (t : ResourceType) (l : list ResourceType) : bool :=
  existsb (resourceType_eqb t) l.

Definition eligibleType (cfg : Config) (incident : Incident)
    (typePriority : option (list ResourceType)) (t : ResourceType) : bool :=
  match typePriority with
  | None => true
  | Some l =>
      listed t l || Qle_bool (highSeverityThreshold cfg) (severity incident)
  end.

Definition isEligible (cfg : Config) (incident : Incident)
    (typePriority : option (list ResourceType)) (r : Resource) : bool :=
  eligibleType cfg incident typePriority (resourceType r).

Definition speedOf (cfg : Config) (r : Resource) : R :=
  match speedKmh r with
  | Some v => v
  | None => nominalSpeed cfg (resourceType r)
  end.

Definition decide (cfg : Config) (typePriority : option (list ResourceType))
    (s : Scored) : DispatchDecision :=
  let r := candidate s in
  mkDecision (resourceId r) (dist s) (dist s / speedOf cfg r * 60)
    (String.append "nearest available "
       (String.append (typeName (resourceType r))
          (match typePriority with
           | Some l =>
               if listed (resourceType r) l
               then " matching priority"%string else EmptyString
           | None => EmptyString
           end))).

(** Modelled from the spec: [selectResource(incident, candidates,
    typePriority?)] of the dispatch service, which is not among the sources;
    steps 1 to 6 of section 4.2.  Step 1 keeps the available candidates and
    fails with [NoResourceAvailable] when there is none; step 4 keeps, of
    those, the candidates of an eligible type, and the dispatch fails with
    [NoResourceAvailable] when that eligible set is empty (section 7); the
    eligible candidates are scored and the best one is returned. *)
Definition selectResource (cfg : Config) (incident : Incident)
    (candidates : list Resource)
    (typePriority : option (list ResourceType)) : DispatchResult :=
  match filter isAvailable candidates with
  | [] => NoResourceAvailable
  | a :: others =>
      match filter (isEligible cfg incident typePriority) (a :: others) with
      | [] => NoResourceAvailable
      | r :: rs =>
          Dispatch (decide cfg typePriority
                      (pickBest (score incident typePriority r)
                                (map (score incident typePriority) rs)))
      end
  end.

(** The order that [prefer] decides: type-priority group first, distance
    within a group, the id at equal distance. *)
Definition atLeastAsGood (a b : Scored) : Prop :=
  (rank a < rank b)%nat \/
  (rank a = rank b /\
   (dist a < dist b \/
    (dist a = dist b /\
     (resourceId (candidate a) <= resourceId (candidate b))%Z))).

(** The incident and the resources of the two dispatch scenarios. *)
Definition incidentAtOrigin : Incident :=
  mkIncident 1 origin 5%Q medical 0 pending.

(** An incident of low severity and one of high severity, for the
    eligibility rule. *)
Definition minorIncident : Incident :=
  mkIncident 2 origin 1%Q medical 0 pending.

Definition severeIncident : Incident :=
  mkIncident 3 origin 9%Q medical 0 pending.

Definition ambulanceAt3km : Resource :=
  mkResource 1 ambulance available (northOf 3) None.

Definition ambulanceAt8km : Resource :=
  mkResource 2 ambulance available (northOf 8) None.

Definition droneAt8km : Resource :=
  mkResource 3 drone available (northOf 8) None.

End ResourceSelector.

(** *** IncidentClusterer *)

Module IncidentClusterer.
Import GeoMath DataModel.

Section Grouping.

Variable A : Type.
Variable near : A -> A -> bool.

Definition touches (x : A) (g : list A) : bool := existsb (near x) g.

(** Modelled from the spec: the clustering service behind
    [/sos/reports/clustered] is not among the sources.  Single-linkage
    grouping of section 4.3, one element at a time: the new element joins,
    and thereby merges, every group it is near. *)
Definition absorb (x : A) (groups : list (list A)) : list (list A) :=
  let (touching, apart) := partition (touches x) groups in
  (x :: concat touching) :: apart.

Definition components (l : list A) : list (list A) :=
  fold_right absorb [] l.

(** Modelled from the spec: the relation that section 4.3 closes
    transitively (no code for it is among the sources): a chain of [near]
    pairs through elements of [l]. *)
Inductive linked (l : list A) : A -> A -> Prop :=
| linked_refl x : In x l -> linked l x x
| linked_step x y z :
    In x l -> In y l -> near x y = true -> linked l y z -> linked l x z.

(** The groups cover [l] with non-empty, connected sets that are closed
    under [near]. *)
Record grouped (l : list A) (groups : list (list A)) : Prop := mkGrouped {
  grouped_cover : forall x, In x l -> exists g, In g groups /\ In x g;
  grouped_sound : forall g x, In g groups -> In x g -> In x l;
  grouped_inhabited : forall g, In g groups -> exists x, In x g;
  grouped_connected :
    forall g x y, In g groups -> In x g -> In y g -> linked l x y;
  grouped_closed :
    forall g x y, In g groups -> In x g -> In y l -> near x y = true -> In y g
}.

End Grouping.

Arguments touches {A} near x g.
Arguments absorb {A} near x groups.
Arguments components {A} near l.
Arguments linked {A} near l _ _.
Arguments grouped {A} near l groups.
Arguments grouped_cover {A near l groups}.
Arguments grouped_sound {A near l groups}.
Arguments grouped_inhabited {A near l groups}.
Arguments grouped_connected {A near l groups}.
Arguments grouped_closed {A near l groups}.

Definition eligible (i : Incident) : bool :=
  match incidentStatus i with
  | pending | acknowledged | in_progress => true
  | resolved | cancelled => false
  end.

Definition within (radiusKm : R) (a b : Incident) : bool :=
  Rleb (distanceKm (incidentLocation a) (incidentLocation b)) radiusKm.

Definition emergencyType_eq_dec (a b : EmergencyType) : {a = b} + {a <> b}.
Proof. decide equality. Defined.

Record Cluster : Type := mkCluster {
  centroid : GeoPoint;
  memberIncidentIds : list Z;
  incidentCount : nat;
  averageSeverity : Q;
  emergencyTypes : list EmergencyType;
  mostRecentIncidentTime : Z
}.

Definition sumR (l : list R) : R := fold_right Rplus 0%R l.
Definition sumQ (l : list Q) : Q := fold_right Qplus 0%Q l.

Definition meanR (l : list R) : R := (sumR l / INR (length l))%R.
Definition meanQ (l : list Q) : Q :=
  (sumQ l / inject_Z (Z.of_nat (length l)))%Q.

Definition latest (l : list Z) : Z :=
  match l with
  | [] => 0%Z
  | t :: ts => fold_right Z.max t ts
  end.

(** Modelled from the spec: the aggregate statistics that section 4.3 asks
    of one cluster (the service is not among the sources). *)
Definition summarize (members : list Incident) : Cluster :=
  mkCluster
    (mkGeoPoint (meanR (map (fun i => latitude (incidentLocation i)) members))
                (meanR (map (fun i => longitude (incidentLocation i)) members)))
    (map incidentId members)
    (length members)
    (meanQ (map severity members))
    (nodup emergencyType_eq_dec (map emergencyType members))
    (latest (map reportedAt members)).

(** The groups of the active incidents, before aggregation. *)
Definition groupsOf (incidents : list Incident) (radiusKm : R)
  : list (list Incident) :=
  components (within radiusKm) (filter eligible incidents).

(** Modelled from the spec: [cluster(incidents, radiusKm) -> [Cluster]] of
    section 4.3, whose code is not among the sources. *)
Definition cluster (incidents : list Incident) (radiusKm : R) : list Cluster :=
  map summarize (groupsOf incidents radiusKm).

(** An active incident [km] kilometres due north of the origin. *)
Definition incidentNorth (id : Z) (km : R) : Incident :=
  mkIncident id (northOf km) 5%Q medical 0 pending.

(** Two cluster lists with the same membership sets, in any order. *)
Definition sameMembers (c d : Cluster) : Prop :=
  forall i, In i (memberIncidentIds c) <-> In i (memberIncidentIds d).

Definition samePartition (cs ds : list Cluster) : Prop :=
  (forall c, In c cs -> exists d, In d ds /\ sameMembers c d) /\
  (forall d, In d ds -> exists c, In c cs /\ sameMembers c d).

End IncidentClusterer.

(** *** AssistanceMatcher *)

Module AssistanceMatcher.
Import GeoMath DataModel.
Local Open Scope R_scope.

Record RankedOffer : Type := mkRanked {
  offer : AssistanceOffer;
  offerDistanceKm : R;
  offerArrivalMinutes : R
}.

(** The assumed travel speed of ad-hoc volunteers, 40 km/h by default. *)
Definition defaultSpeedKmh : R := 40.

Definition rankOne (speed : R) (incident : Incident) (o : AssistanceOffer)
  : RankedOffer :=
  let d := distanceKm (helperLocation o) (incidentLocation incident) in
  mkRanked o d (d / speed * 60).

(** Modelled from the spec: the sort key of section 4.4 (the assistance
    service is not among the sources): nearer first, and at equal distance
    the offer made first. *)
Definition ranksBefore (a b : RankedOffer) : bool :=
  Rltb (offerDistanceKm a) (offerDistanceKm b)
  || (Reqb (offerDistanceKm a) (offerDistanceKm b)
      && Z.leb (offeredAt (offer a)) (offeredAt (offer b))).

Fixpoint insertRanked (x : RankedOffer) (l : list RankedOffer)
  : list RankedOffer :=
  match l with
  | [] => [x]
  | y :: rest =>
      if ranksBefore x y then x :: y :: rest else y :: insertRanked x rest
  end.

Definition sortRanked (l : list RankedOffer) : list RankedOffer :=
  fold_right insertRanked [] l.

(** The order that [ranksBefore] decides. *)
Definition rankedOrder (a b : RankedOffer) : Prop :=
  offerDistanceKm a < offerDistanceKm b \/
  (offerDistanceKm a = offerDistanceKm b /\
   (offeredAt (offer a) <= offeredAt (offer b))%Z).

(** An offer with another rating, everything else unchanged. *)
Definition withRating (f : AssistanceOffer -> option Q) (o : AssistanceOffer)
  : AssistanceOffer :=
  mkOffer (offerId o) (offerIncidentId o) (helperLocation o)
          (assistanceType o) (isVerified o) (f o)
          (offeredAt o) (acceptedAt o).

Definition notAccepted (o : AssistanceOffer) : bool :=
  match acceptedAt o with None => true | Some _ => false end.

Definition truncate {X : Type} (limit : option nat) (l : list X) : list X :=
  match limit with
  | None => l
  | Some n => firstn n l
  end.

(** Modelled from the spec: [rankOffers(incident, offers, limit?)] of
    section 4.4, whose code (behind [/sos/assistance/offers]) is not among
    the sources; [includeAccepted] is the explicit request to rank accepted
    offers too. *)
Definition rankOffersWith (speed : R) (includeAccepted : bool)
    (incident : Incident) (offers : list AssistanceOffer)
    (limit : option nat) : list RankedOffer :=
  let pool := filter (fun o => includeAccepted || notAccepted o) offers in
  truncate limit (sortRanked (map (rankOne speed incident) pool)).

Definition rankOffers (incident : Incident) (offers : list AssistanceOffer)
    (limit : option nat) : list RankedOffer :=
  rankOffersWith defaultSpeedKmh false incident offers limit.

Inductive AcceptDecision : Type :=
| AcceptedOffer
| AlreadyAccepted
| NotFound.

Definition findOffer (id : Z) (offers : list AssistanceOffer)
  : option AssistanceOffer :=
  find (fun o => Z.eqb (offerId o) id) offers.

(** Modelled from the spec: [acceptOffer(offerId)] of section 4.4 over the
    offers supplied, a pure decision; the code behind
    [/sos/assistance/{id}/accept] is not among the sources. *)
Definition acceptOffer (id : Z) (offers : list AssistanceOffer)
  : AcceptDecision :=
  match findOffer id offers with
  | None => NotFound
  | Some o =>
      match acceptedAt o with
      | None => AcceptedOffer
      | Some _ => AlreadyAccepted
      end
  end.

(** The caller's state transition, as the assistance panel applies it:
    [offers.map(o => o.id === offerId ? { ...o, accepted_at: now } : o)]. *)
Definition markAccepted (now : Z) (id : Z) (offers : list AssistanceOffer)
  : list AssistanceOffer :=
  map (fun o =>
         if Z.eqb (offerId o) id
         then mkOffer (offerId o) (offerIncidentId o) (helperLocation o)
                      (assistanceType o) (isVerified o) (rating o)
                      (offeredAt o) (Some now)
         else o)
      offers.

(** One accept request of a single-threaded caller: decide, then apply the
    transition when the decision allows it. *)
Definition acceptStep (now : Z) (id : Z) (offers : list AssistanceOffer)
  : AcceptDecision * list AssistanceOffer :=
  let d := acceptOffer id offers in
  (d, match d with
      | AcceptedOffer => markAccepted now id offers
      | _ => offers
      end).

(** Two requests on the same offer id, one after the other. *)
Definition acceptTwice (now1 now2 : Z) (id : Z) (offers : list AssistanceOffer)
  : AcceptDecision * AcceptDecision :=
  let (d1, offers1) := acceptStep now1 id offers in
  let (d2, _) := acceptStep now2 id offers1 in
  (d1, d2).

(** An open offer made at time [t] by a helper [km] kilometres north of the
    origin. *)
Definition offerNorth (id : Z) (km : R) (t : Z) : AssistanceOffer :=
  mkOffer id 1 (northOf km) medical_knowledge true None t None.

End AssistanceMatcher.

(** ** The SOS socket hook itself *)

Module SOSSocketHook.
Import GeoMath SOSSocket.

(** What [ws.onmessage] receives: text that makes the [try] block throw
    (it is not JSON, or not an object), a message whose [type] is not
    ['alert'], or the fields of an alert; in the last case an empty
    [timestamp] stands for a missing (falsy) one. *)
Inductive Incoming : Type :=
| Unparsable
| NotAnAlert
| AlertData (fields : SOSAlert).

(** [data.timestamp || new Date().toISOString()] *)
Definition stamped (now : string) (fields : SOSAlert) : SOSAlert :=
  match timestamp fields with
  | EmptyString =>
      mkSOSAlert (id fields) (sos_report_id fields) (alert_type fields)
                 (message fields) (broadcast_scope fields)
                 (latitude fields) (longitude fields) now
  | _ => fields
  end.

(** The alert that a message yields, if any. *)
Definition decode (m : string * Incoming) : option SOSAlert :=
  match snd m with
  | AlertData fields => Some (stamped (fst m) fields)
  | _ => None
  end.

Fixpoint decodeAll (ms : list (string * Incoming)) : list SOSAlert :=
  match ms with
  | [] => []
  | m :: rest =>
      match decode m with
      | Some a => a :: decodeAll rest
      | None => decodeAll rest
      end
  end.

Section Handler.

(** The state of the component that uses the hook, and its optional
    [onAlert] and [onError] callbacks. *)
Variable Client : Type.
Variable onAlert : option (SOSAlert -> Client -> Client).
Variable onError : option (Client -> Client).

Definition call1 (f : option (Client -> Client)) (c : Client) : Client :=
  match f with
  | Some g => g c
  | None => c
  end.

(** [ws.onmessage]: the hook's [alerts] and the client state after a
    message received at time [now]. *)
Definition onMessage (m : string * Incoming)
    (st : list SOSAlert * Client) : list SOSAlert * Client :=
  match snd m with
  | Unparsable => (fst st, call1 onError (snd st))
  | NotAnAlert => st
  | AlertData fields =>
      let alert := stamped (fst m) fields in
      (alert :: slice99 (fst st),
       match onAlert with
       | Some f => f alert (snd st)
       | None => snd st
       end)
  end.

Definition receive (ms : list (string * Incoming))
    (st : list SOSAlert * Client) : list SOSAlert * Client :=
  fold_left (fun st m => onMessage m st) ms st.

End Handler.

Arguments onMessage {Client} onAlert onError m st.
Arguments receive {Client} onAlert onError ms st.

(** [useNearbySOSAlerts] on top of [useSOSSocket]: the client state is the
    nearby list, [onAlert] is the radius filter and no [onError] is given.
    The pair is (the socket hook's [alerts], the nearby [alerts]). *)
Definition nearbyOverSocket (latitude0 longitude0 radiusKm : R)
    (ms : list (string * Incoming)) : list SOSAlert * list SOSAlert :=
  receive (Some (SOSSocket.onAlert latitude0 longitude0 radiusKm)) None
          ms ([], []).

(** [clearAlerts] *)
Definition clearAlerts {Client : Type} (st : list SOSAlert * Client)
  : list SOSAlert * Client :=
  ([], snd st).

(** The radius test of the nearby hook as a boolean. *)
Definition inRadius (latitude0 longitude0 radiusKm : R) (a : SOSAlert) : bool :=
  Rleb (calculateDistance latitude0 longitude0 (latitude a) (longitude a))
       radiusKm.

(** *** Channel subscriptions

    [subscriptionsRef.current] is a [Set<string>], kept here in insertion
    order; [sent] logs what goes through [ws.send]. *)
Inductive Action : Type := subscribeAction | unsubscribeAction.

Record Channels : Type := mkChannels {
  subscriptions : list string;
  sent : list (Action * string)
}.

(** [Set.prototype.add] and [Set.prototype.delete] *)
Definition setAdd (c : string) (l : list string) : list string :=
  if existsb (String.eqb c) l then l else l ++ [c].

Definition setDelete (c : string) (l : list string) : list string :=
  filter (fun x => negb (String.eqb x c)) l.

(** [subscribe(channel)]; [live] is [webSocketRef.current && isConnected]. *)
Definition subscribe (live : bool) (channel : string) (st : Channels)
  : Channels :=
  mkChannels (setAdd channel (subscriptions st))
             (if live then sent st ++ [(subscribeAction, channel)]
              else sent st).

(** [unsubscribe(channel)] *)
Definition unsubscribe (live : bool) (channel : string) (st : Channels)
  : Channels :=
  mkChannels (setDelete channel (subscriptions st))
             (if live then sent st ++ [(unsubscribeAction, channel)]
              else sent st).

(** The re-subscription loop of [ws.onopen]. *)
Definition onOpen (st : Channels) : Channels :=
  mkChannels (subscriptions st)
             (sent st ++ map (fun c => (subscribeAction, c)) (subscriptions st)).

Inductive ChannelOp : Type :=
| Subscribe (live : bool) (channel : string)
| Unsubscribe (live : bool) (channel : string)
| Open.

Definition applyOp (st : Channels) (op : ChannelOp) : Channels :=
  match op with
  | Subscribe live c => subscribe live c st
  | Unsubscribe live c => unsubscribe live c st
  | Open => onOpen st
  end.

Definition runOps (ops : list ChannelOp) : Channels :=
  fold_left applyOp ops (mkChannels [] []).

(** Whether the last request about [c] in [ops] was a subscription. *)
Fixpoint wanted (c : string) (ops : list ChannelOp) (sofar : bool) : bool :=
  match ops with
  | [] => sofar
  | Subscribe _ c' :: rest =>
      wanted c rest (if String.eqb c' c then true else sofar)
  | Unsubscribe _ c' :: rest =>
      wanted c rest (if String.eqb c' c then false else sofar)
  | Open :: rest => wanted c rest sofar
  end.

End SOSSocketHook.

(** ** The dashboard's disaster list *)

Module DisasterData.
Import UsgsService.

(** [DisasterType] of the dashboard data; the feed service produces two of
    its values. *)
Inductive DisasterType : Type :=
| earthquake | flood | wildfire | cyclone | tsunami | volcano.

Record Disaster : Type := mkDisaster {
  id : string;
  type : DisasterType;
  name : string;
  location : string;
  lat : Q;
  lng : Q;
  severity : SeverityLevel;
  magnitude : option Q;
  affectedPopulation : Z;
  deployedTeams : Z;
  timestamp : string;
  description : string;
  status : DisasterStatus
}.

(** A record of the feed service as an element of the dashboard's list. *)
Definition ofUsgs (d : UsgsService.Disaster) : Disaster :=
  mkDisaster (UsgsService.id d)
             (match UsgsService.type d with
              | UsgsService.earthquake => earthquake
              | UsgsService.tsunami => tsunami
              end)
             (UsgsService.name d) (UsgsService.location d)
             (UsgsService.lat d) (UsgsService.lng d)
             (UsgsService.severity d) (UsgsService.magnitude d)
             (UsgsService.affectedPopulation d) (UsgsService.deployedTeams d)
             (UsgsService.timestamp d) (UsgsService.description d)
             (UsgsService.status d).

(** [d.id.startsWith('usgs-')] *)
Definition isUsgs (d : Disaster) : bool := String.prefix "usgs-" (id d).

(** The state update of [refreshUSGS]:
    [prev => [...prev.filter(d => !d.id.startsWith('usgs-')), ...quakes]]. *)
Definition replaceQuakes (quakes prev : list Disaster) : list Disaster :=
  filter (fun d => negb (isUsgs d)) prev ++ quakes.

(** [addDisaster]: [prev => [d, ...prev]]. *)
Definition addDisaster (d : Disaster) (prev : list Disaster) : list Disaster :=
  d :: prev.

Section Refresh.

Variable toFixed1 : Q -> string.
Variable toISOString : Z -> string.
Variable random : nat -> Q.

(** [refreshUSGS]: the [disasters] state after the feed has answered. *)
Definition refreshUSGS (net : Fetched) (prev : list Disaster) : list Disaster :=
  replaceQuakes
    (map ofUsgs (fetchUSGSEarthquakes toFixed1 toISOString random net)) prev.

End Refresh.

(** How a well-formed feature determines its record, apart from the two
    random counts. *)
Definition recordOf (toISOString : Z -> string)
    (f : USGSFeature) (d : UsgsService.Disaster) : Prop :=
  exists p c m t,
    properties f = Some p /\ geometry f = Some c /\
    mag p = Some m /\ time p = Some t /\
    UsgsService.id d = String.append "usgs-" (fid f) /\
    UsgsService.name d = title p /\
    UsgsService.lng d = fst c /\ UsgsService.lat d = snd c /\
    UsgsService.magnitude d = Some m /\
    UsgsService.severity d = mapSeverity m /\
    UsgsService.timestamp d = toISOString t /\
    (UsgsService.type d = UsgsService.tsunami <-> tsunamiFlag p <> 0%Z) /\
    (UsgsService.location d = "Unknown"%string <->
     place p = None \/ place p = Some EmptyString
     \/ place p = Some "Unknown"%string).

(** Two entries of a dashboard list: the first mock disaster, and an entry
    left by an earlier refresh. *)
Definition mockD1 : Disaster :=
  mkDisaster "d1" earthquake "Tohoku Offshore Quake"
             "Miyagi Prefecture, Japan" (3832 # 100) (14237 # 100) critical
             (Some (72 # 10)) 245000 48 "2026-02-19T03:14:00Z"
             "Major seismic event detected offshore." active.

Definition staleQuake : Disaster :=
  mkDisaster "usgs-old1" earthquake "M 4.1 - old" "Somewhere"
             (10 # 1) (20 # 1) moderate (Some (41 # 10)) 5000 7
             "2026-02-18T00:00:00Z" "M4.1 earthquake detected." monitoring.

(** The bounds of [affectedPopulation] that go with a severity: the base of
    [estimateAffected] and the base plus the span of the random term. *)
Definition affectedRange (s : SeverityLevel) : Z * Z :=
  match s with
  | critical => (100000, 600000)
  | high => (10000, 60000)
  | moderate => (1000, 11000)
  | low => (100, 2100)
  end%Z.

End DisasterData.

(** ** The dispatch panel *)

Module DispatchPanel.

(** [Array.prototype.includes] on strings. *)
Definition includes (type : string) (l : list string) : bool :=
  existsb (String.eqb type) l.

(** [handleResourceTypeChange]: the next [formData.resourceTypes]. *)
Definition handleResourceTypeChange (type : string)
    (resourceTypes : list string) : list string :=
  if includes type resourceTypes
  then filter (fun t => negb (String.eqb t type)) resourceTypes
  else resourceTypes ++ [type].

(** The check boxes clicked one after the other, from the initial [[]]. *)
Definition clicked (types : list string) : list string :=
  fold_left (fun l t => handleResourceTypeChange t l) types [].

(** [resource_type_priority] of the request:
    [resourceTypes.length > 0 ? resourceTypes : undefined]. *)
Definition resourceTypePriority (resourceTypes : list string)
  : option (list string) :=
  if Nat.ltb 0 (length resourceTypes) then Some resourceTypes else None.

(** The recommendation as the panel reads it; [resource_name] is the text
    that the template literal prints for [rec.resource_name]. *)
Record Recommendation : Type := mkRecommendation {
  resource_id : Z;
  resource_name : string;
  resource_type : string;
  reason : string
}.

(** What a [catch] receives: an [Error] with its message, or some other
    value. *)
Inductive Thrown : Type :=
| ErrorObject (message : string)
| NotAnError.

(** [err instanceof Error ? err.message : 'Failed to dispatch']. *)
Definition shown (e : Thrown) : string :=
  match e with
  | ErrorObject message => message
  | NotAnError => "Failed to dispatch"%string
  end.

(** What [response.json()] resolves with: [null], or a value that is read
    as the recommendation. *)
Inductive Json : Type :=
| JsonNull
| JsonRecord (rec : Recommendation).

(** What [resourceService.autoDispatch] meets: a rejected [fetch], or a
    response with its [ok] flag whose [json()] rejects or resolves. *)
Inductive Reply : Type :=
| FetchRejected (e : Thrown)
| Answered (ok : bool) (body : Thrown + Json).

(** [autoDispatch]: what it throws, or the parsed body that it returns
    unchecked. *)
Definition autoDispatch (reply : Reply) : Thrown + Json :=
  match reply with
  | FetchRejected e => inl e
  | Answered false _ => inl (ErrorObject "Failed to dispatch resource")
  | Answered true body => body
  end.

Record PanelState : Type := mkPanelState {
  loading : bool;
  error : option string;
  success : option string;
  recommendation : option Recommendation
}.

(** [handleDispatch], from the click to the end of its [finally].
    [nullAccess] is the message of the [TypeError] that reading
    [rec.resource_name] raises when [rec] is [null]; [onDispatch] is the
    optional callback of the component, which returns or throws. *)
Definition handleDispatch (nullAccess : string)
    (onDispatch : option (Recommendation -> option Thrown))
    (reply : Reply) (st : PanelState) : PanelState :=
  match autoDispatch reply with
  | inl e =>
      (* [autoDispatch] throws: nothing after the [await] runs *)
      mkPanelState false (Some (shown e)) None (recommendation st)
  | inr JsonNull =>
      (* [setRecommendation(null)] runs, the template literal throws *)
      mkPanelState false (Some nullAccess) None None
  | inr (JsonRecord rec) =>
      (* [setRecommendation], [setSuccess], then the callback *)
      mkPanelState false
        (match onDispatch with
         | Some callback => option_map shown (callback rec)
         | None => None
         end)
        (Some (String.append "Resource dispatched: " (resource_name rec)))
        (Some rec)
  end.

End DispatchPanel.

(** ** Elapsed-time labels of the assistance panel and of the alert feed *)

Module ElapsedTime.

Definition showNumber (z : Z) : string :=
  DecimalString.NilZero.string_of_int (Z.to_int z).

(** [getTimeAgo] of the assistance panel; [now] and [date] are the
    [getTime()] values in milliseconds, [Math.floor] of a quotient is
    [Z.div]. *)
Definition getTimeAgo (now date : Z) : string :=
  let seconds := ((now - date) / 1000)%Z in
  if (seconds <? 60)%Z then String.append (showNumber seconds) "s ago"
  else if (seconds <? 3600)%Z
       then String.append (showNumber (seconds / 60)) "m ago"
       else String.append (showNumber (seconds / 3600)) "h ago".

(** [timeAgo] of the alert feed. *)
Definition timeAgo (now ts : Z) : string :=
  let diff := (now - ts)%Z in
  let mins := (diff / 60000)%Z in
  if (mins <? 1)%Z then "just now"%string
  else if (mins <? 60)%Z then String.append (showNumber mins) "m ago"
       else let hrs := (mins / 60)%Z in
            String.append (showNumber hrs) "h ago".

(** The number and the unit that [getTimeAgo] displays. *)
Inductive Unit : Type := secondsUnit | minutesUnit | hoursUnit.

Definition unitSeconds (u : Unit) : Z :=
  match u with
  | secondsUnit => 1
  | minutesUnit => 60
  | hoursUnit => 3600
  end.

Definition unitSuffix (u : Unit) : string :=
  match u with
  | secondsUnit => "s ago"
  | minutesUnit => "m ago"
  | hoursUnit => "h ago"
  end.

Definition shown (now date : Z) : Z * Unit :=
  let seconds := ((now - date) / 1000)%Z in
  if (seconds <? 60)%Z then (seconds, secondsUnit)
  else if (seconds <? 3600)%Z then ((seconds / 60)%Z, minutesUnit)
       else ((seconds / 3600)%Z, hoursUnit).

End ElapsedTime.

(** ** The "Closest" badge of the assistance panel *)

Module AssistancePanel.
Import DataModel AssistanceMatcher.

(** The offer that carries the badge in the rendered list:
    [!offer.accepted_at && index === 0]. *)
Definition closestBadge (offers : list AssistanceOffer) : option Z :=
  match offers with
  | o :: _ => if notAccepted o then Some (offerId o) else None
  | [] => None
  end.

(** What an offer shows apart from its acceptance. *)
Definition unchangedPart (o : AssistanceOffer) :=
  (offerId o, offerIncidentId o, helperLocation o, assistanceType o,
   isVerified o, rating o, offeredAt o).

End AssistancePanel.

(** ** The simulated event source of the dashboard *)

Module SimulatedWebSocket.
Import UsgsService DisasterData.

Inductive AlertKind : Type :=
| warningAlert | criticalAlert | infoAlert | updateAlert.

Record Alert : Type := mkAlert {
  alertId : string;
  disasterId : string;
  alertKind : AlertKind;
  alertMessage : string;
  alertTimestamp : string
}.

(** An entry of [SIMULATED_EVENTS]: a disaster without [id] and
    [timestamp] (left empty here), and the text of its alert. *)
Record SimulatedEvent : Type := mkEvent {
  template : Disaster;
  alertText : string
}.

Definition SIMULATED_EVENTS : list SimulatedEvent :=
  [ mkEvent
      (mkDisaster EmptyString earthquake "Aegean Sea Tremor" "Izmir, Turkey"
         (3842 # 100) (2714 # 100) moderate (Some (51 # 10)) 42000 12
         EmptyString
         "Moderate earthquake detected in the Aegean Sea. Coastal monitoring active."
         monitoring)
      "New seismic activity detected near Izmir, Turkey. M5.1.";
    mkEvent
      (mkDisaster EmptyString flood "Rhine River Surge" "Cologne, Germany"
         (5094 # 100) (696 # 100) high None 95000 28
         EmptyString
         "Rhine river levels exceed critical threshold. Flooding imminent in low-lying areas."
         active)
      "Rhine river at critical level. Flood warning issued for Cologne metropolitan area.";
    mkEvent
      (mkDisaster EmptyString wildfire "Algarve Coast Fire" "Faro, Portugal"
         (3702 # 100) (- 793 # 100) high None 18000 16
         EmptyString
         "Fast-moving wildfire in southern Portugal. Tourist areas being evacuated."
         active)
      "Wildfire spreading rapidly in Algarve region. Aerial firefighting deployed.";
    mkEvent
      (mkDisaster EmptyString cyclone "Tropical Storm Beta" "Caribbean Sea"
         (165 # 10) (- 650 # 10) moderate None 120000 20
         EmptyString
         "Tropical storm forming in the Caribbean. Potential to intensify within 48 hours."
         monitoring)
      "Tropical Storm Beta forming. Caribbean islands on standby alert.";
    mkEvent
      (mkDisaster EmptyString volcano "Etna Flank Eruption" "Sicily, Italy"
         (3775 # 100) (1499 # 100) moderate None 32000 10
         EmptyString
         "New fissure eruption on SE flank. Lava flow moving slowly toward inhabited zone."
         active)
      "Mount Etna eruption intensifying. New lava flow detected on southeast flank." ].

Definition noEvent : SimulatedEvent :=
  mkEvent (mkDisaster EmptyString earthquake EmptyString EmptyString 0 0 low
                      None 0 0 EmptyString EmptyString resolved)
          EmptyString.

(** [{ ...event.disaster, id, timestamp: now }] *)
Definition instantiate (t : Disaster) (newId now : string) : Disaster :=
  mkDisaster newId (type t) (name t) (location t) (lat t) (lng t)
             (severity t) (magnitude t) (affectedPopulation t)
             (deployedTeams t) now (description t) (status t).

Definition kindOf (s : SeverityLevel) : AlertKind :=
  match s with
  | critical => criticalAlert
  | high => warningAlert
  | _ => infoAlert
  end.

(** One run of the interval callback: [counter] is the module-level
    counter, [now] the ISO time, [ms1] and [ms2] the two readings of
    [Date.now()].  The result is the next counter, the disaster given to
    [onNewDisaster] and the alert given to [onNewAlert]. *)
Definition tick (counter : nat) (now : string) (ms1 ms2 : Z)
  : nat * Disaster * Alert :=
  let idx := Nat.modulo counter (length SIMULATED_EVENTS) in
  let event := nth idx SIMULATED_EVENTS noEvent in
  let newId := String.append "sim-" (ElapsedTime.showNumber ms1) in
  let disaster := instantiate (template event) newId now in
  let alert :=
    mkAlert (String.append "alert-" (ElapsedTime.showNumber ms2)) newId
            (kindOf (severity disaster)) (alertText event) now in
  (S counter, disaster, alert).

End SimulatedWebSocket.

(** * Properties *)

(** ** Comparisons *)

Module NumberFacts.
Import GeoMath.

Lemma Qle_bool_false (x y : Q) : Qle_bool x y = false <-> (y < x)%Q.
Proof.
  rewrite <- Bool.not_true_iff_false, Qle_bool_iff. split.
  - apply Qnot_le_lt.
  - apply Qlt_not_le.
Qed.

Lemma Rltb_true (x y : R) : Rltb x y = true <-> (x < y)%R.
Proof. unfold Rltb. destruct (Rlt_dec x y); split; intros; auto; discriminate. Qed.

Lemma Rltb_false (x y : R) : Rltb x y = false <-> (y <= x)%R.
Proof.
  unfold Rltb. destruct (Rlt_dec x y); split; intros; auto; try discriminate; lra.
Qed.

Lemma Reqb_true (x y : R) : Reqb x y = true <-> x = y.
Proof. unfold Reqb. destruct (Req_dec_T x y); split; intros; auto; discriminate. Qed.

Lemma Reqb_false (x y : R) : Reqb x y = false <-> x <> y.
Proof.
  unfold Reqb. destruct (Req_dec_T x y); split; intros; auto;
    try discriminate; contradiction.
Qed.

Lemma Rleb_true (x y : R) : Rleb x y = true <-> (x <= y)%R.
Proof. unfold Rleb. destruct (Rle_dec x y); split; intros; auto; discriminate. Qed.

Lemma Rleb_holds (x y : R) : (x <= y)%R -> Rleb x y = true.
Proof. intros H. unfold Rleb. destruct (Rle_dec x y); [reflexivity | contradiction]. Qed.

Lemma Rleb_fails (x y : R) : (y < x)%R -> Rleb x y = false.
Proof. intros H. unfold Rleb. destruct (Rle_dec x y); [lra | reflexivity]. Qed.

End NumberFacts.

(** ** GeoMath *)

Module GeoMathFacts.
Import GeoMath.
Local Open Scope R_scope.

(** *** Facts on [atan2] in the closed first quadrant *)

Lemma atan2_quadrant1 (y x : R) :
  0 <= y -> 0 <= x -> 0 <= atan2 y x <= PI / 2.
Proof.
  intros Hy Hx. unfold atan2.
  pose proof PI_RGT_0 as Hpi.
  destruct (Rlt_dec 0 x) as [Hpos | Hnpos].
  - assert (0 <= y / x) as Hq.
    { apply Rmult_le_pos; [assumption | left; apply Rinv_0_lt_compat; assumption]. }
    split.
    + destruct Hq as [Hq | Hq].
      * left. rewrite <- atan_0. apply atan_increasing. assumption.
      * rewrite <- Hq, atan_0. lra.
    + left. apply atan_bound.
  - destruct (Rlt_dec x 0); [lra |].
    destruct (Rlt_dec 0 y); [lra |].
    destruct (Rlt_dec y 0); lra.
Qed.

Lemma atan2_zero_iff (y x : R) :
  0 <= y -> 0 <= x -> (y <> 0 \/ x <> 0) -> (atan2 y x = 0 <-> y = 0).
Proof.
  intros Hy Hx Hnz. unfold atan2.
  pose proof PI_RGT_0 as Hpi.
  destruct (Rlt_dec 0 x) as [Hpos | Hnpos].
  - split.
    + intros Hat.
      destruct (Req_dec y 0) as [-> | Hne]; [reflexivity | exfalso].
      assert (0 < y / x) as Hq.
      { apply Rmult_lt_0_compat; [lra | apply Rinv_0_lt_compat; assumption]. }
      apply atan_increasing in Hq. rewrite atan_0 in Hq. lra.
    + intros ->. unfold Rdiv. rewrite Rmult_0_l. apply atan_0.
  - destruct (Rlt_dec x 0); [lra |].
    assert (x = 0) by lra. subst x.
    destruct (Rlt_dec 0 y); [split; lra |].
    destruct Hnz; lra.
Qed.

(** *** Facts on the intermediate [a] *)

Lemma toRad_half_diff (u v : R) :
  2 * (toRad (v - u) / 2) = toRad v - toRad u.
Proof. unfold toRad. field. Qed.

Lemma sin_sqr_half (x : R) : sin x * sin x = (1 - cos (2 * x)) / 2.
Proof. rewrite cos_2a_sin. field. Qed.

Lemma cos_cos_product (p q : R) :
  cos p * cos q = (cos (q - p) + cos (p + q)) / 2.
Proof. rewrite cos_minus, cos_plus. field. Qed.

(** [a] as a convex combination of two quantities of [[0, 1]]. *)
Lemma haversineA_convex (lat1 lon1 lat2 lon2 : R) :
  let s := sin (toRad (lon2 - lon1) / 2) * sin (toRad (lon2 - lon1) / 2) in
  let u := (1 - cos (toRad lat2 - toRad lat1)) / 2 in
  let v := (1 + cos (toRad lat1 + toRad lat2)) / 2 in
  haversineA lat1 lon1 lat2 lon2 = (1 - s) * u + s * v.
Proof.
  intros s u v. unfold haversineA.
  rewrite (sin_sqr_half (toRad (lat2 - lat1) / 2)), toRad_half_diff.
  rewrite (cos_cos_product (toRad lat1) (toRad lat2)).
  subst s u v. simpl. field.
Qed.

Lemma sin_sqr_range (x : R) : 0 <= sin x * sin x <= 1.
Proof.
  pose proof (SIN_bound x) as [Hl Hu]. split; nra.
Qed.

Lemma haversineA_range (lat1 lon1 lat2 lon2 : R) :
  0 <= haversineA lat1 lon1 lat2 lon2 <= 1.
Proof.
  rewrite haversineA_convex.
  pose proof (sin_sqr_range (toRad (lon2 - lon1) / 2)) as Hs.
  pose proof (COS_bound (toRad lat2 - toRad lat1)) as Hu.
  pose proof (COS_bound (toRad lat1 + toRad lat2)) as Hv.
  set (s := sin (toRad (lon2 - lon1) / 2) * sin (toRad (lon2 - lon1) / 2)) in *.
  set (cu := cos (toRad lat2 - toRad lat1)) in *.
  set (cv := cos (toRad lat1 + toRad lat2)) in *.
  split; nra.
Qed.

Lemma haversineA_sym (lat1 lon1 lat2 lon2 : R) :
  haversineA lat1 lon1 lat2 lon2 = haversineA lat2 lon2 lat1 lon1.
Proof.
  unfold haversineA.
  replace (toRad (lat1 - lat2) / 2) with (- (toRad (lat2 - lat1) / 2))
    by (unfold toRad; field).
  replace (toRad (lon1 - lon2) / 2) with (- (toRad (lon2 - lon1) / 2))
    by (unfold toRad; field).
  rewrite !sin_neg. ring.
Qed.

Lemma calculateDistance_sym (lat1 lon1 lat2 lon2 : R) :
  calculateDistance lat1 lon1 lat2 lon2 = calculateDistance lat2 lon2 lat1 lon1.
Proof.
  unfold calculateDistance. rewrite (haversineA_sym lat1 lon1 lat2 lon2).
  reflexivity.
Qed.

Lemma calculateDistance_range (lat1 lon1 lat2 lon2 : R) :
  0 <= calculateDistance lat1 lon1 lat2 lon2 <= 6371 * PI.
Proof.
  unfold calculateDistance.
  pose proof (haversineA_range lat1 lon1 lat2 lon2) as [Ha0 Ha1].
  pose proof (atan2_quadrant1 (sqrt (haversineA lat1 lon1 lat2 lon2))
                (sqrt (1 - haversineA lat1 lon1 lat2 lon2))
                (sqrt_pos _) (sqrt_pos _)) as [Hc0 Hc1].
  split; nra.
Qed.

Lemma calculateDistance_zero_iff (lat1 lon1 lat2 lon2 : R) :
  calculateDistance lat1 lon1 lat2 lon2 = 0 <->
  haversineA lat1 lon1 lat2 lon2 = 0.
Proof.
  unfold calculateDistance.
  pose proof (haversineA_range lat1 lon1 lat2 lon2) as [Ha0 Ha1].
  set (a := haversineA lat1 lon1 lat2 lon2) in *.
  assert (sqrt a <> 0 \/ sqrt (1 - a) <> 0) as Hnz.
  { destruct (Req_dec a 0) as [-> | Hne].
    - right. rewrite Rminus_0_r, sqrt_1. lra.
    - left. intros Hs. apply sqrt_eq_0 in Hs; lra. }
  pose proof (atan2_zero_iff (sqrt a) (sqrt (1 - a))
                (sqrt_pos _) (sqrt_pos _) Hnz) as Hat.
  split.
  - intros Hd.
    assert (atan2 (sqrt a) (sqrt (1 - a)) = 0) as Hz by lra.
    apply Hat in Hz. apply sqrt_eq_0 in Hz; lra.
  - intros Hz. rewrite Hz, sqrt_0 in *.
    assert (atan2 0 (sqrt (1 - 0)) = 0) as -> by (apply Hat; reflexivity).
    ring.
Qed.

(** Along a meridian the computed distance is the arc length. *)
Lemma calculateDistance_meridian (lat1 lat2 lon : R) :
  lat1 <= lat2 <= lat1 + 180 ->
  calculateDistance lat1 lon lat2 lon = 6371 * toRad (lat2 - lat1).
Proof.
  intros [Hlo Hhi]. unfold calculateDistance, haversineA.
  pose proof PI_RGT_0 as Hpi.
  replace (toRad (lon - lon) / 2) with 0 by (unfold toRad; field).
  rewrite sin_0, !Rmult_0_r, Rplus_0_r.
  set (x := toRad (lat2 - lat1) / 2).
  assert (0 <= x <= PI / 2) as [Hx0 Hx1].
  { subst x. unfold toRad. split; nra. }
  assert (0 <= sin x) as Hsin.
  { apply sin_ge_0; lra. }
  assert (0 <= cos x) as Hcos.
  { apply cos_ge_0; lra. }
  replace (1 - sin x * sin x) with (cos x * cos x)
    by (pose proof (sin2_cos2 x) as H2; unfold Rsqr in H2; lra).
  rewrite !sqrt_square by assumption.
  assert (atan2 (sin x) (cos x) = x) as ->.
  { unfold atan2.
    destruct (Rlt_dec 0 (cos x)) as [Hpos | Hnpos].
    - assert (x < PI / 2) as Hlt.
      { destruct (Rle_lt_or_eq_dec _ _ Hx1) as [Hl | He]; [assumption |].
        rewrite He, cos_PI2 in Hpos. lra. }
      change (sin x / cos x) with (tan x). apply atan_tan. lra.
    - assert (cos x = 0) as Hc0 by lra.
      destruct (Rlt_dec (cos x) 0); [lra |].
      assert (x = PI / 2) as Hx.
      { destruct (Rle_lt_or_eq_dec _ _ Hx1) as [Hl | He]; [| assumption].
        assert (0 < cos x) by (apply cos_gt_0; lra). lra. }
      rewrite Hx, sin_PI2.
      destruct (Rlt_dec 0 1); lra. }
  subst x. field.
Qed.

(** *** When the computed distance vanishes *)

Lemma sin_zero_small (x : R) : - PI < x < PI -> sin x = 0 -> x = 0.
Proof.
  intros [Hlo Hhi] Hs.
  destruct (Rtotal_order x 0) as [Hneg | [Hz | Hpos]]; [| assumption |].
  - pose proof (sin_lt_0_var x Hlo Hneg). lra.
  - pose proof (sin_gt_0 x Hpos Hhi). lra.
Qed.

Lemma sin_zero_wide (x : R) :
  - PI <= x <= PI -> sin x = 0 -> x = - PI \/ x = 0 \/ x = PI.
Proof.
  intros [Hlo Hhi] Hs.
  destruct (Req_dec x (- PI)) as [-> | Hn1]; [left; reflexivity |].
  destruct (Req_dec x PI) as [-> | Hn2]; [right; right; reflexivity |].
  right; left. apply sin_zero_small; [lra | assumption].
Qed.

Lemma cos_zero_quarter (x : R) :
  - (PI / 2) <= x <= PI / 2 -> cos x = 0 -> x = - (PI / 2) \/ x = PI / 2.
Proof.
  intros [Hlo Hhi] Hc.
  destruct (Req_dec x (- (PI / 2))) as [-> | Hn1]; [left; reflexivity |].
  destruct (Req_dec x (PI / 2)) as [-> | Hn2]; [right; reflexivity |].
  assert (0 < cos x) by (apply cos_gt_0; lra). lra.
Qed.

Lemma toRad_inj_const (d k : R) : toRad d = k * PI -> d = k * 180.
Proof.
  unfold toRad. intros H. pose proof PI_RGT_0 as Hpi.
  assert (d * PI = k * 180 * PI) as H' by (field_simplify in H; nra).
  apply Rmult_eq_reg_r in H'; lra.
Qed.

Lemma haversineA_zero_iff (lat1 lon1 lat2 lon2 : R) :
  validPoint lat1 lon1 -> validPoint lat2 lon2 ->
  (haversineA lat1 lon1 lat2 lon2 = 0 <-> samePlace lat1 lon1 lat2 lon2).
Proof.
  intros [[Hl1 Hu1] [Hl1' Hu1']] [[Hl2 Hu2] [Hl2' Hu2']].
  pose proof PI_RGT_0 as Hpi.
  unfold haversineA, samePlace.
  set (x := toRad (lat2 - lat1) / 2).
  set (z := toRad (lon2 - lon1) / 2).
  assert (- (PI / 2) <= x <= PI / 2) as Hx by (subst x; unfold toRad; split; nra).
  assert (- PI <= z <= PI) as Hz by (subst z; unfold toRad; split; nra).
  assert (- (PI / 2) <= toRad lat1 <= PI / 2) as Hp1 by (unfold toRad; split; nra).
  assert (- (PI / 2) <= toRad lat2 <= PI / 2) as Hp2 by (unfold toRad; split; nra).
  assert (0 <= cos (toRad lat1)) as Hc1 by (apply cos_ge_0; lra).
  assert (0 <= cos (toRad lat2)) as Hc2 by (apply cos_ge_0; lra).
  split.
  - intros Ha.
    assert (0 <= sin x * sin x) as Hsx by nra.
    assert (0 <= cos (toRad lat1) * cos (toRad lat2) * sin z * sin z) as Hsz.
    { rewrite Rmult_assoc. apply Rmult_le_pos; nra. }
    assert (sin x = 0) as Hsx0 by nra.
    assert (cos (toRad lat1) * cos (toRad lat2) * sin z * sin z = 0) as Hprod by nra.
    apply sin_zero_small in Hsx0; [| lra].
    assert (lat1 = lat2) as Heq.
    { assert (toRad (lat2 - lat1) = 0 * PI) as H0 by (subst x; lra).
      apply toRad_inj_const in H0. lra. }
    split; [assumption |]. subst lat2.
    assert (cos (toRad lat1) = 0 \/ sin z = 0) as [Hc | Hs].
    { destruct (Req_dec (cos (toRad lat1)) 0) as [? | Hcn]; [left; assumption |].
      right. destruct (Req_dec (sin z) 0) as [? | Hsn]; [assumption | exfalso].
      assert (0 < cos (toRad lat1) * cos (toRad lat1)) by nra.
      assert (0 < sin z * sin z) by nra.
      nra. }
    + apply cos_zero_quarter in Hc; [| assumption].
      destruct Hc as [Hc | Hc].
      * right; left.
        assert (toRad lat1 = (- (1 / 2)) * PI) as H0 by lra.
        apply toRad_inj_const in H0. lra.
      * left.
        assert (toRad lat1 = (1 / 2) * PI) as H0 by lra.
        apply toRad_inj_const in H0. lra.
    + apply sin_zero_wide in Hs; [| assumption].
      right; right.
      destruct Hs as [Hs | [Hs | Hs]].
      * right; right.
        assert (toRad (lon2 - lon1) = (-2) * PI) as H0 by (subst z; lra).
        apply toRad_inj_const in H0. lra.
      * left.
        assert (toRad (lon2 - lon1) = 0 * PI) as H0 by (subst z; lra).
        apply toRad_inj_const in H0. lra.
      * right; left.
        assert (toRad (lon2 - lon1) = 2 * PI) as H0 by (subst z; lra).
        apply toRad_inj_const in H0. lra.
  - intros [Heq Hcases]. subst lat2.
    assert (x = 0) as -> by (subst x; unfold toRad; field).
    rewrite sin_0.
    destruct Hcases as [Hn | [Hs | [Hd | [Hd | Hd]]]].
    + replace (toRad lat1) with (PI / 2) by (subst lat1; unfold toRad; field).
      rewrite cos_PI2. ring.
    + replace (toRad lat1) with (- (PI / 2)) by (subst lat1; unfold toRad; field).
      rewrite cos_neg, cos_PI2. ring.
    + assert (z = 0) as -> by (subst z; rewrite Hd; unfold toRad; field).
      rewrite sin_0. ring.
    + assert (z = PI) as -> by (subst z; rewrite Hd; unfold toRad; field).
      rewrite sin_PI. ring.
    + assert (z = - PI) as -> by (subst z; rewrite Hd; unfold toRad; field).
      rewrite sin_neg, sin_PI. ring.
Qed.

Lemma calculateDistance_self (lat lon : R) : calculateDistance lat lon lat lon = 0.
Proof.
  apply calculateDistance_zero_iff. unfold haversineA.
  replace (toRad (lat - lat) / 2) with 0 by (unfold toRad; field).
  replace (toRad (lon - lon) / 2) with 0 by (unfold toRad; field).
  rewrite sin_0. ring.
Qed.

Lemma distanceKm_sym (a b : GeoPoint) : distanceKm a b = distanceKm b a.
Proof. unfold distanceKm. apply calculateDistance_sym. Qed.

Lemma distanceKm_northOf_origin (km : R) :
  0 <= km <= 6371 * PI -> distanceKm (northOf km) origin = km.
Proof.
  intros [H0 H1]. pose proof PI_RGT_0 as Hpi.
  rewrite distanceKm_sym. unfold distanceKm, northOf, origin. simpl.
  rewrite calculateDistance_meridian.
  - unfold toRad. field. lra.
  - split.
    + apply Rmult_le_pos; [nra |]. left. apply Rinv_0_lt_compat. nra.
    + apply Rmult_le_reg_r with (6371 * PI); [nra |].
      unfold Rdiv. rewrite Rmult_assoc, Rinv_l by nra. nra.
Qed.

Lemma distanceKm_northOf (a b : R) :
  0 <= a <= b -> b <= 6371 * PI -> distanceKm (northOf a) (northOf b) = b - a.
Proof.
  intros [Ha Hab] Hb. pose proof PI_RGT_0 as Hpi.
  unfold distanceKm, northOf. simpl.
  assert (0 < 6371 * PI) as Hpos by nra.
  rewrite calculateDistance_meridian.
  - unfold toRad. field. lra.
  - unfold Rdiv. split.
    + apply Rmult_le_compat_r; [left; apply Rinv_0_lt_compat, Hpos | nra].
    + apply Rmult_le_reg_r with (6371 * PI); [exact Hpos |].
      rewrite Rmult_plus_distr_r, !Rmult_assoc, Rinv_l by lra. nra.
Qed.

(** C2, as the code has it.  [calculateDistance] checks no range: whatever
    the four coordinates, in range or not, the call returns a number, which
    lies between 0 and half the circumference of the Earth; no input makes
    it fail with [InvalidCoordinate]. *)
Theorem calculateDistance_always_returns (lat1 lon1 lat2 lon2 : R) :
  exists d : R,
    calculateDistanceCall lat1 lon1 lat2 lon2 = Returns d /\
    0 <= d <= 6371 * PI /\
    calculateDistanceCall lat1 lon1 lat2 lon2 <> Throws InvalidCoordinate.
Proof.
  exists (calculateDistance lat1 lon1 lat2 lon2).
  split; [reflexivity |].
  split; [apply calculateDistance_range |].
  unfold calculateDistanceCall. discriminate.
Qed.

(** C2 fails on the code: latitude 91 is out of range, and the call returns
    the length of a 91-degree arc instead of failing. *)
Lemma calculateDistance_accepts_latitude_91 :
  ~ validPoint 91 0 /\
  calculateDistanceCall 91 0 0 0 = Returns (6371 * (91 * (PI / 180))) /\
  calculateDistanceCall 91 0 0 0 <> Throws InvalidCoordinate.
Proof.
  split; [unfold validPoint; lra |].
  split; [| unfold calculateDistanceCall; discriminate].
  unfold calculateDistanceCall. f_equal.
  rewrite calculateDistance_sym, calculateDistance_meridian by lra.
  unfold toRad. f_equal. f_equal. lra.
Qed.

(** C3.  The distance computation is symmetric in its two points:
    [calculateDistance(lat1, lon1, lat2, lon2)] equals
    [calculateDistance(lat2, lon2, lat1, lon1)], and so does [distanceKm]
    on any two points, valid ones in particular. *)
Theorem distance_symmetric :
  (forall lat1 lon1 lat2 lon2 : R,
      calculateDistance lat1 lon1 lat2 lon2 =
      calculateDistance lat2 lon2 lat1 lon1) /\
  (forall a b : GeoPoint, distanceKm a b = distanceKm b a).
Proof.
  split.
  - intros. unfold calculateDistance, haversineA.
    replace (toRad (lat1 - lat2) / 2) with (- (toRad (lat2 - lat1) / 2))
      by (unfold toRad; field).
    replace (toRad (lon1 - lon2) / 2) with (- (toRad (lon2 - lon1) / 2))
      by (unfold toRad; field).
    rewrite !sin_neg.
    replace (- sin (toRad (lat2 - lat1) / 2) * - sin (toRad (lat2 - lat1) / 2))
      with (sin (toRad (lat2 - lat1) / 2) * sin (toRad (lat2 - lat1) / 2))
      by ring.
    replace (cos (toRad lat2) * cos (toRad lat1) *
             - sin (toRad (lon2 - lon1) / 2) * - sin (toRad (lon2 - lon1) / 2))
      with (cos (toRad lat1) * cos (toRad lat2) *
            sin (toRad (lon2 - lon1) / 2) * sin (toRad (lon2 - lon1) / 2))
      by ring.
    reflexivity.
  - intros a b. apply distanceKm_sym.
Qed.

(** C8, as the code has it.  For valid points the distance from a point to
    itself is 0, and the distance between two points is 0 exactly when they
    denote the same place: equal latitudes, and either that latitude is a
    pole or the longitudes are equal or a full turn apart. *)
Theorem distance_zero_iff_same_place (lat1 lon1 lat2 lon2 : R) :
  validPoint lat1 lon1 -> validPoint lat2 lon2 ->
  calculateDistance lat1 lon1 lat1 lon1 = 0 /\
  (calculateDistance lat1 lon1 lat2 lon2 = 0 <->
   samePlace lat1 lon1 lat2 lon2).
Proof.
  intros Hv1 Hv2. split.
  - apply calculateDistance_self.
  - rewrite calculateDistance_zero_iff. apply haversineA_zero_iff; assumption.
Qed.

Lemma distance_zero_iff_same_place_witness :
  validPoint 28.7041 77.1025 /\ validPoint 28.7541 77.1025 /\
  calculateDistance 28.7041 77.1025 28.7041 77.1025 = 0 /\
  calculateDistance 28.7041 77.1025 28.7541 77.1025 <> 0.
Proof.
  assert (validPoint 28.7041 77.1025) as Hv1 by (unfold validPoint; lra).
  assert (validPoint 28.7541 77.1025) as Hv2 by (unfold validPoint; lra).
  destruct (distance_zero_iff_same_place _ _ _ _ Hv1 Hv2) as [Hself Hiff].
  split; [assumption |]. split; [assumption |]. split; [assumption |].
  intros Hz. apply Hiff in Hz. destruct Hz as [Hlat _]. lra.
Defined.

(** C8 fails on the code: two different valid points on the north pole are
    at distance 0. *)
Lemma distinct_polar_points_at_distance_zero :
  validPoint 90 0 /\ validPoint 90 50 /\
  mkGeoPoint 90 0 <> mkGeoPoint 90 50 /\
  calculateDistance 90 0 90 50 = 0 /\
  distanceKm (mkGeoPoint 90 0) (mkGeoPoint 90 50) = 0.
Proof.
  assert (validPoint 90 0) as Hv1 by (unfold validPoint; lra).
  assert (validPoint 90 50) as Hv2 by (unfold validPoint; lra).
  assert (calculateDistance 90 0 90 50 = 0) as Hd.
  { apply calculateDistance_zero_iff.
    apply (haversineA_zero_iff 90 0 90 50 Hv1 Hv2).
    unfold samePlace. split; [reflexivity | left; reflexivity]. }
  repeat split; try (unfold validPoint in *; lra); try assumption.
  intros Heq. inversion Heq as [Hlon]. lra.
Qed.

End GeoMathFacts.

(** ** The nearby-alerts hook *)

Module SOSSocketFacts.
Import GeoMath SOSSocket.
Local Open Scope R_scope.

Section Subscription.

Variables latitude0 longitude0 radiusKm : R.

Let distanceTo (a : SOSAlert) : R :=
  calculateDistance latitude0 longitude0 (latitude a) (longitude a).

Let step (prev : list SOSAlert) (a : SOSAlert) : list SOSAlert :=
  onAlert latitude0 longitude0 radiusKm a prev.

Let retained : list SOSAlert -> Prop :=
  withinBounds latitude0 longitude0 radiusKm.

Lemma retained_nil : retained [].
Proof. split; [simpl; lia | constructor]. Qed.

Lemma onAlert_near (a : SOSAlert) (prev : list SOSAlert) :
  distanceTo a <= radiusKm -> step prev a = a :: firstn 99 prev.
Proof.
  intros Hd. unfold step, onAlert, slice99. fold (distanceTo a).
  destruct (Rle_dec (distanceTo a) radiusKm); [reflexivity | contradiction].
Qed.

Lemma onAlert_far (a : SOSAlert) (prev : list SOSAlert) :
  radiusKm < distanceTo a -> step prev a = prev.
Proof.
  intros Hd. unfold step, onAlert. fold (distanceTo a).
  destruct (Rle_dec (distanceTo a) radiusKm); [lra | reflexivity].
Qed.

Lemma retained_step (a : SOSAlert) (prev : list SOSAlert) :
  retained prev -> retained (step prev a).
Proof.
  intros [Hlen Hall].
  destruct (Rle_dec (distanceTo a) radiusKm) as [Hd | Hd].
  - rewrite onAlert_near by assumption. split.
    + change (S (length (firstn 99 prev)) <= 100)%nat.
      rewrite length_firstn. lia.
    + constructor; [assumption |].
      rewrite Forall_forall in *. intros x Hx.
      apply Hall. rewrite <- (firstn_skipn 99 prev).
      apply in_or_app. left. assumption.
  - rewrite onAlert_far by lra. split; assumption.
Qed.

Lemma retained_run (incoming : list SOSAlert) (st : list SOSAlert) :
  retained st -> retained (fold_left step incoming st).
Proof.
  revert st. induction incoming as [| a rest IH]; intros st Hst; simpl.
  - assumption.
  - apply IH, retained_step, Hst.
Qed.

Lemma hook_retained (incoming : list SOSAlert) :
  retained (useNearbySOSAlerts latitude0 longitude0 radiusKm incoming).
Proof. apply retained_run, retained_nil. Qed.

Lemma hook_snoc (incoming : list SOSAlert) (a : SOSAlert) :
  useNearbySOSAlerts latitude0 longitude0 radiusKm (incoming ++ [a]) =
  step (useNearbySOSAlerts latitude0 longitude0 radiusKm incoming) a.
Proof. unfold useNearbySOSAlerts. rewrite fold_left_app. reflexivity. Qed.

End Subscription.

(** C9.  After any stream of alerts, the hook's list on arrival of one more
    alert becomes that alert in front of the first 99 retained ones exactly
    when the Haversine distance from the subscription point to the alert is
    at most [radiusKm] (the boundary included); an alert strictly farther
    leaves the list as it was; the list never holds more than 100 alerts,
    all of them within the radius. *)
Theorem nearby_alerts_within_radius
    (latitude0 longitude0 radiusKm : R)
    (incoming : list SOSAlert) (alert : SOSAlert) :
  let prev := useNearbySOSAlerts latitude0 longitude0 radiusKm incoming in
  let next :=
    useNearbySOSAlerts latitude0 longitude0 radiusKm (incoming ++ [alert]) in
  let d :=
    calculateDistance latitude0 longitude0 (latitude alert) (longitude alert) in
  (d <= radiusKm <-> next = alert :: firstn 99 prev) /\
  (radiusKm < d -> next = prev) /\
  (length next <= 100)%nat /\
  (forall a, In a next ->
     calculateDistance latitude0 longitude0 (latitude a) (longitude a)
     <= radiusKm).
Proof.
  intros prev next d.
  pose proof (hook_retained latitude0 longitude0 radiusKm incoming) as [_ Hprev].
  pose proof (hook_retained latitude0 longitude0 radiusKm (incoming ++ [alert]))
    as [Hlen Hnext].
  fold prev in Hprev. fold next in Hlen, Hnext.
  assert (next = onAlert latitude0 longitude0 radiusKm alert prev) as Hstep
    by apply hook_snoc.
  split; [| split; [| split]].
  - split.
    + intros Hd. rewrite Hstep. apply onAlert_near. exact Hd.
    + intros Heq.
      rewrite Forall_forall in Hnext. apply (Hnext alert).
      rewrite Heq. left. reflexivity.
  - intros Hd. rewrite Hstep. apply onAlert_far. exact Hd.
  - exact Hlen.
  - rewrite Forall_forall in Hnext. exact Hnext.
Qed.

End SOSSocketFacts.

(** ** The USGS feed *)

Module UsgsServiceFacts.
Import UsgsService NumberFacts.
Local Open Scope Q_scope.

Lemma mapSeverity_table (m : Q) :
  (7 <= m -> mapSeverity m = critical) /\
  ((11 # 2) <= m -> m < 7 -> mapSeverity m = high) /\
  (4 <= m -> m < (11 # 2) -> mapSeverity m = moderate) /\
  (m < 4 -> mapSeverity m = low).
Proof.
  unfold mapSeverity.
  destruct (Qle_bool 7 m) eqn:H7;
    [apply Qle_bool_iff in H7 | apply Qle_bool_false in H7];
  (destruct (Qle_bool (11 # 2) m) eqn:H5;
    [apply Qle_bool_iff in H5 | apply Qle_bool_false in H5]);
  (destruct (Qle_bool 4 m) eqn:H4;
    [apply Qle_bool_iff in H4 | apply Qle_bool_false in H4]);
  repeat split; intros; try reflexivity; exfalso;
  unfold Qle, Qlt in *; simpl in *; lia.
Qed.

Example sample_severities :
  map severity
      (sampleFetch [sampleFeature (72 # 10); sampleFeature (11 # 2);
                    sampleFeature 4; sampleFeature (39 # 10)])
  = [critical; high; moderate; low].
Proof. reflexivity. Qed.

Example sample_truncated_to_15 :
  length (sampleFetch (repeat (sampleFeature 5) 20)) = 15%nat.
Proof. reflexivity. Qed.

Example sample_broken_feature_empties_result :
  sampleFetch [sampleFeature 6; brokenFeature; sampleFeature 3] = [] /\
  length (sampleFetch (repeat (sampleFeature 5) 15 ++ [brokenFeature])) = 15%nat.
Proof. split; reflexivity. Qed.

Section Feed.

Variable toFixed1 : Q -> string.
Variable toISOString : Z -> string.
Variable random : nat -> Q.

Let toDisaster := toDisaster toFixed1 toISOString random.
Let mapFrom := mapFrom toFixed1 toISOString random.
Let fetchBody := fetchBody toFixed1 toISOString random.
Let fetchUSGSEarthquakes := fetchUSGSEarthquakes toFixed1 toISOString random.

Lemma toDisaster_ok (i : nat) (f : USGSFeature) (d : Disaster) :
  toDisaster i f = Ok d ->
  wellFormed f = true /\
  exists m, magnitude d = Some m /\ severity d = mapSeverity m.
Proof.
  unfold toDisaster, UsgsService.toDisaster, wellFormed.
  destruct (geometry f) as [c |]; simpl; [| discriminate].
  destruct (properties f) as [p |]; simpl; [| discriminate].
  destruct (time p) as [t |]; simpl;
    [| destruct (mag p); discriminate].
  destruct (mag p) as [m |]; simpl; [| discriminate].
  intros H. inversion H; subst; clear H. simpl.
  split; [reflexivity |]. exists m. split; reflexivity.
Qed.

Lemma toDisaster_malformed (i : nat) (f : USGSFeature) :
  wellFormed f = false -> exists e, toDisaster i f = Throw e.
Proof.
  unfold toDisaster, UsgsService.toDisaster, wellFormed.
  destruct (geometry f) as [c |]; simpl; [| eexists; reflexivity].
  destruct (properties f) as [p |]; simpl; [| eexists; reflexivity].
  destruct (mag p) as [m |], (time p) as [t |]; simpl;
    try discriminate; intros _; eexists; reflexivity.
Qed.

Lemma mapFrom_ok (fs : list USGSFeature) :
  forall (i : nat) (ds : list Disaster),
    mapFrom i fs = Ok ds ->
    length ds = length fs /\
    forallb wellFormed fs = true /\
    Forall (fun d => exists m, magnitude d = Some m /\ severity d = mapSeverity m)
           ds.
Proof.
  induction fs as [| f rest IH]; intros i ds H.
  - inversion H; subst. repeat split; constructor.
  - unfold mapFrom in H. simpl in H. fold toDisaster in H.
    fold (mapFrom (S i) rest) in H.
    destruct (toDisaster i f) as [d |] eqn:Hd; simpl in H; [| discriminate].
    destruct (mapFrom (S i) rest) as [ds' |] eqn:Hrest; simpl in H;
      [| discriminate].
    inversion H; subst; clear H.
    destruct (toDisaster_ok _ _ _ Hd) as [Hwf Hsev].
    destruct (IH _ _ Hrest) as [Hlen [Hall Hprops]].
    repeat split.
    + simpl. f_equal. exact Hlen.
    + simpl. rewrite Hwf, Hall. reflexivity.
    + constructor; assumption.
Qed.

Lemma mapFrom_complete (fs : list USGSFeature) :
  forall i : nat,
    forallb wellFormed fs = true -> exists ds, mapFrom i fs = Ok ds.
Proof.
  induction fs as [| f rest IH]; intros i H.
  - exists []. reflexivity.
  - simpl in H. apply andb_prop in H. destruct H as [Hf Hrest].
    destruct (IH (S i) Hrest) as [ds Hds].
    unfold mapFrom. simpl. fold toDisaster. fold (mapFrom (S i) rest).
    destruct (toDisaster i f) as [d | e] eqn:Hd.
    + rewrite Hds. simpl. eexists; reflexivity.
    + exfalso. revert Hd Hf.
      unfold toDisaster, UsgsService.toDisaster, wellFormed.
      destruct (geometry f) as [c |]; simpl; [| discriminate].
      destruct (properties f) as [p |]; simpl; [| discriminate].
      destruct (mag p), (time p); simpl; discriminate.
Qed.

Lemma fetch_caught (net : Fetched) (e : Exn) :
  fetchBody net = Throw e -> fetchUSGSEarthquakes net = [].
Proof.
  unfold fetchUSGSEarthquakes, UsgsService.fetchUSGSEarthquakes.
  fold fetchBody. intros ->. reflexivity.
Qed.

Lemma fetch_returned (net : Fetched) (ds : list Disaster) :
  fetchBody net = Ok ds -> fetchUSGSEarthquakes net = ds.
Proof.
  unfold fetchUSGSEarthquakes, UsgsService.fetchUSGSEarthquakes.
  fold fetchBody. intros ->. reflexivity.
Qed.

End Feed.

(** C10.  [fetchUSGSEarthquakes] hands no error to its caller: whenever the
    body of its [try] throws (the request is rejected, the status is not ok,
    the body is not JSON, the [features] array is missing, or one of the
    first 15 features is malformed) the result is the empty list; otherwise
    it is one record per feature among the first 15, so never more than 15;
    every record's severity is [mapSeverity] of its magnitude, which is
    critical from 7, high from 5.5, moderate from 4 and low below. *)
Theorem fetchUSGSEarthquakes_never_throws
    (toFixed1 : Q -> string) (toISOString : Z -> string) (random : nat -> Q)
    (net : Fetched) :
  let result := fetchUSGSEarthquakes toFixed1 toISOString random net in
  (forall e, fetchBody toFixed1 toISOString random net = Throw e ->
             result = []) /\
  (net = Rejected -> result = []) /\
  (forall res, net = Resolved res -> ok res = false -> result = []) /\
  (forall res, net = Resolved res -> json res = None -> result = []) /\
  (forall res, net = Resolved res -> json res = Some None -> result = []) /\
  (forall res fs, net = Resolved res -> json res = Some (Some fs) ->
                  forallb wellFormed (firstn 15 fs) = false -> result = []) /\
  (forall res fs, net = Resolved res -> ok res = true ->
                  json res = Some (Some fs) ->
                  forallb wellFormed (firstn 15 fs) = true ->
                  length result = Nat.min 15 (length fs)) /\
  (length result <= 15)%nat /\
  (forall d, In d result ->
             exists m, magnitude d = Some m /\ severity d = mapSeverity m) /\
  (forall m, (7 <= m -> mapSeverity m = critical) /\
             ((11 # 2) <= m -> m < 7 -> mapSeverity m = high) /\
             (4 <= m -> m < (11 # 2) -> mapSeverity m = moderate) /\
             (m < 4 -> mapSeverity m = low)).
Proof.
  intros result.
  assert (forall e, fetchBody toFixed1 toISOString random net = Throw e ->
                    result = []) as Hcaught.
  { intros e He. apply (fetch_caught _ _ _ _ _ He). }
  assert (forall res fs, net = Resolved res -> json res = Some (Some fs) ->
            forall ds,
              fetchBody toFixed1 toISOString random net = Ok ds ->
              mapFrom toFixed1 toISOString random 0 (firstn 15 fs) = Ok ds)
    as Hbody.
  { intros res fs -> Hj ds. unfold fetchBody.
    destruct (negb (ok res)); [discriminate |].
    rewrite Hj. simpl. trivial. }
  split; [exact Hcaught |].
  split; [intros ->; reflexivity |].
  split.
  { intros res -> Hok. apply (Hcaught (ApiError (httpStatus res))).
    unfold fetchBody. rewrite Hok. reflexivity. }
  split.
  { intros res -> Hj. unfold result, fetchUSGSEarthquakes, fetchBody.
    destruct (negb (ok res)); [reflexivity |]. rewrite Hj. reflexivity. }
  split.
  { intros res -> Hj. unfold result, fetchUSGSEarthquakes, fetchBody.
    destruct (negb (ok res)); [reflexivity |]. rewrite Hj. reflexivity. }
  split.
  { intros res fs Hnet Hj Hbad.
    destruct (fetchBody toFixed1 toISOString random net) as [ds | e] eqn:Hb.
    - pose proof (Hbody _ _ Hnet Hj ds eq_refl) as Hm.
      apply mapFrom_ok in Hm. destruct Hm as [_ [Hwf _]]. congruence.
    - apply (Hcaught e). reflexivity. }
  split.
  { intros res fs Hnet Hok Hj Hgood.
    destruct (mapFrom_complete toFixed1 toISOString random _ 0%nat Hgood)
      as [ds Hds].
    assert (fetchBody toFixed1 toISOString random net = Ok ds) as Hb.
    { subst net. unfold fetchBody. rewrite Hok, Hj. simpl. exact Hds. }
    unfold result. rewrite (fetch_returned _ _ _ _ _ Hb).
    apply mapFrom_ok in Hds. destruct Hds as [Hlen _].
    rewrite Hlen, length_firstn. reflexivity. }
  assert (result = [] \/
          exists fs, mapFrom toFixed1 toISOString random 0 (firstn 15 fs)
                     = Ok result) as Hshape.
  { destruct (fetchBody toFixed1 toISOString random net) as [ds | e] eqn:Hb.
    - right. unfold result. rewrite (fetch_returned _ _ _ _ _ Hb).
      revert Hb. unfold fetchBody. destruct net as [| res]; [discriminate |].
      destruct (negb (ok res)); [discriminate |].
      destruct (json res) as [[fs |] |]; simpl; try discriminate.
      intros Hm. exists fs. exact Hm.
    - left. apply (Hcaught e). reflexivity. }
  split.
  { destruct Hshape as [-> | [fs Hm]]; [simpl; lia |].
    apply mapFrom_ok in Hm. destruct Hm as [Hlen _].
    rewrite Hlen, length_firstn. apply Nat.le_min_l. }
  split.
  { intros d Hd. destruct Hshape as [Hnil | [fs Hm]].
    - rewrite Hnil in Hd. destruct Hd.
    - apply mapFrom_ok in Hm. destruct Hm as [_ [_ Hall]].
      rewrite Forall_forall in Hall. apply Hall. exact Hd. }
  apply mapSeverity_table.
Qed.

End UsgsServiceFacts.

(** ** AlertScopeResolver *)

Module AlertScopeResolverFacts.
Import AlertScopeResolver.
Local Open Scope Q_scope.

Lemma scopeOf_table (severity : Q) :
  (severity < 5 -> scopeOf severity = immediate) /\
  (5 <= severity -> severity < 8 -> scopeOf severity = district) /\
  (8 <= severity -> severity < 10 -> scopeOf severity = state) /\
  (10 <= severity -> scopeOf severity = national).
Proof.
  unfold scopeOf.
  destruct (Qle_bool 10 severity) eqn:H10;
    [apply Qle_bool_iff in H10
    | apply NumberFacts.Qle_bool_false in H10];
  (destruct (Qle_bool 8 severity) eqn:H8;
    [apply Qle_bool_iff in H8
    | apply NumberFacts.Qle_bool_false in H8]);
  (destruct (Qle_bool 5 severity) eqn:H5;
    [apply Qle_bool_iff in H5
    | apply NumberFacts.Qle_bool_false in H5]);
  repeat split; intros; try reflexivity; exfalso;
  unfold Qle, Qlt in *; simpl in *; lia.
Qed.

Example resolveScope_9 : resolveScope 9 = mkBroadcastScope state 500000.
Proof. reflexivity. Qed.

Example resolveScope_4 : resolveScope 4 = mkBroadcastScope immediate 500.
Proof. reflexivity. Qed.

Example resolveScope_boundaries :
  scope (resolveScope 5) = district /\
  scope (resolveScope 8) = state /\
  scope (resolveScope 10) = national /\
  scope (resolveScope (499 # 100)) = immediate /\
  scope (resolveScope (999 # 100)) = state.
Proof. repeat split; reflexivity. Qed.

(** C4.  [resolveScope] follows the table: severity in [0, 5) gives
    immediate with 500 recipients, [5, 8) district with 50,000, [8, 10)
    state with 500,000, and 10 or more national with 5,000,000; each lower
    bound belongs to its tier and each upper bound to the next one.  In
    particular [resolveScope 9] is state with 500,000 recipients and
    [resolveScope 4] is immediate. *)
Theorem resolveScope_follows_table :
  (forall severity : Q,
      (0 <= severity -> severity < 5 ->
       resolveScope severity = mkBroadcastScope immediate 500) /\
      (5 <= severity -> severity < 8 ->
       resolveScope severity = mkBroadcastScope district 50000) /\
      (8 <= severity -> severity < 10 ->
       resolveScope severity = mkBroadcastScope state 500000) /\
      (10 <= severity ->
       resolveScope severity = mkBroadcastScope national 5000000)) /\
  resolveScope 9 = mkBroadcastScope state 500000 /\
  scope (resolveScope 4) = immediate.
Proof.
  split; [| split; reflexivity].
  intros severity.
  destruct (scopeOf_table severity) as [Hi [Hd [Hs Hn]]].
  unfold resolveScope.
  repeat split; intros.
  - rewrite Hi by assumption. reflexivity.
  - rewrite Hd by assumption. reflexivity.
  - rewrite Hs by assumption. reflexivity.
  - rewrite Hn by assumption. reflexivity.
Qed.

End AlertScopeResolverFacts.

(** ** ResourceSelector *)

Module ResourceSelectorFacts.
Import GeoMath DataModel ResourceSelector NumberFacts.
Local Open Scope R_scope.

Lemma prefer_true (a b : Scored) : prefer a b = true -> atLeastAsGood a b.
Proof.
  unfold prefer, atLeastAsGood. intros H.
  apply orb_true_iff in H. destruct H as [H | H].
  - left. apply Nat.ltb_lt. exact H.
  - right. apply andb_true_iff in H. destruct H as [Hr H].
    apply Nat.eqb_eq in Hr. split; [exact Hr |].
    apply orb_true_iff in H. destruct H as [H | H].
    + left. apply Rltb_true. exact H.
    + right. apply andb_true_iff in H. destruct H as [He Hi].
      apply Reqb_true in He. apply Z.ltb_lt in Hi. split; [exact He | lia].
Qed.

Lemma prefer_false (a b : Scored) : prefer a b = false -> atLeastAsGood b a.
Proof.
  unfold prefer, atLeastAsGood. intros H.
  apply orb_false_iff in H. destruct H as [Hlt H].
  apply Nat.ltb_ge in Hlt.
  destruct (Nat.eq_dec (rank a) (rank b)) as [Heq | Hne]; [| left; lia].
  right. split; [symmetry; exact Heq |].
  rewrite (proj2 (Nat.eqb_eq _ _) Heq) in H. simpl in H.
  apply orb_false_iff in H. destruct H as [Hd H].
  apply Rltb_false in Hd.
  destruct (Req_dec_T (dist a) (dist b)) as [Hdeq | Hdne]; [| left; lra].
  right. split; [symmetry; exact Hdeq |].
  rewrite (proj2 (Reqb_true _ _) Hdeq) in H. simpl in H.
  apply Z.ltb_ge in H. exact H.
Qed.

Lemma atLeastAsGood_refl (a : Scored) : atLeastAsGood a a.
Proof. unfold atLeastAsGood. right. split; [reflexivity |]. right. split; [reflexivity | lia]. Qed.

Lemma atLeastAsGood_trans (a b c : Scored) :
  atLeastAsGood a b -> atLeastAsGood b c -> atLeastAsGood a c.
Proof.
  unfold atLeastAsGood.
  intros [Hab | [Hab [Hab' | [Hab' Hab'']]]] [Hbc | [Hbc [Hbc' | [Hbc' Hbc'']]]];
    try (left; lia);
    right; (split; [lia |]);
    try (left; lra);
    right; split; [lra | lia].
Qed.

Lemma pickBest_spec (rest : list Scored) :
  forall current : Scored,
    In (pickBest current rest) (current :: rest) /\
    atLeastAsGood (pickBest current rest) current /\
    (forall c, In c rest -> atLeastAsGood (pickBest current rest) c).
Proof.
  induction rest as [| c cs IH]; intros current; simpl.
  - split; [left; reflexivity |].
    split; [apply atLeastAsGood_refl | intros c []].
  - destruct (prefer c current) eqn:Hp.
    + destruct (IH c) as [Hin [Hc Hcs]].
      split; [right; exact Hin |].
      split.
      * eapply atLeastAsGood_trans; [exact Hc | apply prefer_true, Hp].
      * intros x [<- | Hx]; [exact Hc | apply Hcs, Hx].
    + destruct (IH current) as [Hin [Hc Hcs]].
      split; [destruct Hin as [Hin | Hin]; [left; exact Hin | right; right; exact Hin] |].
      split; [exact Hc |].
      intros x [<- | Hx]; [| apply Hcs, Hx].
      eapply atLeastAsGood_trans; [exact Hc | apply prefer_false, Hp].
Qed.

Lemma isAvailable_iff (r : Resource) :
  isAvailable r = true <-> resourceStatus r = available.
Proof.
  unfold isAvailable. destruct (resourceStatus r); split; intros; auto; discriminate.
Qed.

Lemma listed_iff (t : ResourceType) (l : list ResourceType) :
  listed t l = true <-> In t l.
Proof.
  unfold listed. rewrite existsb_exists. split.
  - intros [u [Hu He]].
    destruct t, u; simpl in He; try discriminate; exact Hu.
  - intros Hin. exists t. split; [exact Hin | destruct t; reflexivity].
Qed.

Lemma isEligible_iff (cfg : Config) (incident : Incident)
    (l : list ResourceType) (r : Resource) :
  isEligible cfg incident (Some l) r = true <->
  In (resourceType r) l \/
  (highSeverityThreshold cfg <= severity incident)%Q.
Proof.
  unfold isEligible, eligibleType.
  rewrite orb_true_iff, listed_iff, Qle_bool_iff. reflexivity.
Qed.

(** The selection, stated on the candidate that is chosen. *)
Lemma selectResource_spec (cfg : Config) (incident : Incident)
    (candidates : list Resource) (typePriority : option (list ResourceType)) :
  (exists r, In r candidates /\ resourceStatus r = available /\
             isEligible cfg incident typePriority r = true) ->
  exists r,
    selectResource cfg incident candidates typePriority =
      Dispatch (decide cfg typePriority (score incident typePriority r)) /\
    In r candidates /\ resourceStatus r = available /\
    isEligible cfg incident typePriority r = true /\
    forall c, In c candidates -> resourceStatus c = available ->
      isEligible cfg incident typePriority c = true ->
      atLeastAsGood (score incident typePriority r)
                    (score incident typePriority c).
Proof.
  intros [r0 [Hin0 [Hav0 Hel0]]]. unfold selectResource.
  assert (In r0 (filter isAvailable candidates)) as Hf0.
  { apply filter_In. split; [exact Hin0 | apply isAvailable_iff, Hav0]. }
  destruct (filter isAvailable candidates) as [| a others] eqn:Havail;
    [destruct Hf0 |].
  assert (In r0 (filter (isEligible cfg incident typePriority) (a :: others)))
    as Hg0 by (apply filter_In; split; assumption).
  destruct (filter (isEligible cfg incident typePriority) (a :: others))
    as [| r rs] eqn:Hfilter; [destruct Hg0 |].
  set (sc := score incident typePriority).
  destruct (pickBest_spec (map sc rs) (sc r)) as [Hin [Hcur Hrest]].
  assert (In (pickBest (sc r) (map sc rs)) (map sc (r :: rs))) as Hin' by exact Hin.
  apply in_map_iff in Hin'. destruct Hin' as [m [Hm Hmin]].
  exists m. rewrite <- Hm in *.
  assert (forall x, In x (r :: rs) <->
                    In x candidates /\ resourceStatus x = available /\
                    isEligible cfg incident typePriority x = true)
    as Hmem.
  { intros x.
    rewrite <- Hfilter, filter_In, <- Havail, filter_In, isAvailable_iff.
    tauto. }
  split; [reflexivity |].
  split; [apply Hmem, Hmin |].
  split; [apply Hmem, Hmin |].
  split; [apply Hmem, Hmin |].
  intros c Hc Hav Hel.
  assert (In c (r :: rs)) as Hc' by (apply Hmem; tauto).
  destruct Hc' as [<- | Hc']; [exact Hcur |].
  apply Hrest. apply in_map. exact Hc'.
Qed.

(** No eligible candidate, no dispatch: also when candidates are
    available. *)
Lemma selectResource_none (cfg : Config) (incident : Incident)
    (candidates : list Resource) (typePriority : option (list ResourceType)) :
  (forall r, In r candidates -> resourceStatus r = available ->
             isEligible cfg incident typePriority r = false) ->
  selectResource cfg incident candidates typePriority = NoResourceAvailable.
Proof.
  intros Hnone. unfold selectResource.
  destruct (filter isAvailable candidates) as [| a others] eqn:Havail;
    [reflexivity |].
  destruct (filter (isEligible cfg incident typePriority) (a :: others))
    as [| r rs] eqn:Hfilter; [reflexivity |].
  assert (In r (r :: rs)) as Hr by (left; reflexivity).
  rewrite <- Hfilter, filter_In, <- Havail, filter_In, isAvailable_iff in Hr.
  destruct Hr as [[Hin Hav] Hel].
  rewrite (Hnone r Hin Hav) in Hel. discriminate.
Qed.

Lemma typeIndex_le_length (t : ResourceType) (l : list ResourceType) :
  (typeIndex t l <= length l)%nat.
Proof.
  induction l as [| u rest IH]; simpl; [lia |].
  destruct (resourceType_eqb t u); lia.
Qed.

Lemma resourceType_eqb_eq (a b : ResourceType) :
  resourceType_eqb a b = true <-> a = b.
Proof. destruct a, b; simpl; split; intros; auto; discriminate. Qed.

Lemma typeIndex_listed (t : ResourceType) (l : list ResourceType) :
  In t l <-> (typeIndex t l < length l)%nat.
Proof.
  induction l as [| u rest IH]; simpl.
  - split; [intros [] | lia].
  - destruct (resourceType_eqb t u) eqn:He.
    + apply resourceType_eqb_eq in He. subst. split; [lia | auto].
    + split.
      * intros [Hu | Hin].
        -- subst. assert (resourceType_eqb t t = true) as Ht
             by (apply resourceType_eqb_eq; reflexivity).
           congruence.
        -- apply IH in Hin. lia.
      * intros Hlt. right. apply IH. lia.
Qed.

Lemma northOf_3 : distanceKm (northOf 3) origin = 3.
Proof. apply GeoMathFacts.distanceKm_northOf_origin. pose proof PI2_1. lra. Qed.

Lemma northOf_8 : distanceKm (northOf 8) origin = 8.
Proof. apply GeoMathFacts.distanceKm_northOf_origin. pose proof PI2_1. lra. Qed.

Ltac eligible_candidate r :=
  exists r; split; [simpl; tauto | split; reflexivity].

(** With [typePriority = [drone]], the drone 8 km away is chosen over the
    ambulance 3 km away. *)
Example drone_over_nearer_ambulance :
  distanceKm (resourceLocation ambulanceAt3km) origin = 3 /\
  distanceKm (resourceLocation droneAt8km) origin = 8 /\
  exists d,
    selectResource defaultConfig incidentAtOrigin
      [ambulanceAt3km; droneAt8km] (Some [drone]) = Dispatch d /\
    decidedResource d = resourceId droneAt8km /\
    decidedDistanceKm d = 8.
Proof.
  split; [exact northOf_3 |]. split; [exact northOf_8 |].
  destruct (selectResource_spec defaultConfig incidentAtOrigin
              [ambulanceAt3km; droneAt8km] (Some [drone]))
    as [r [Hsel [Hin [_ [Hel _]]]]]; [eligible_candidate droneAt8km |].
  eexists. split; [exact Hsel |].
  destruct Hin as [<- | [<- | []]].
  - discriminate Hel.
  - split; [reflexivity |]. simpl. exact northOf_8.
Qed.

(** At a severity of 9, above the threshold of 7, the ambulance is eligible
    although [typePriority = [drone]] does not list it, yet the drone 8 km
    away is still chosen over the ambulance 3 km away. *)
Example drone_first_at_high_severity :
  exists d,
    selectResource defaultConfig severeIncident
      [ambulanceAt3km; droneAt8km] (Some [drone]) = Dispatch d /\
    decidedResource d = resourceId droneAt8km.
Proof.
  destruct (selectResource_spec defaultConfig severeIncident
              [ambulanceAt3km; droneAt8km] (Some [drone]))
    as [r [Hsel [Hin [_ [_ Hbest]]]]]; [eligible_candidate droneAt8km |].
  eexists. split; [exact Hsel |].
  destruct Hin as [<- | [<- | []]]; [| reflexivity].
  exfalso.
  assert (In droneAt8km [ambulanceAt3km; droneAt8km]) as Hd by (simpl; tauto).
  specialize (Hbest droneAt8km Hd eq_refl eq_refl).
  unfold atLeastAsGood in Hbest. simpl in Hbest.
  destruct Hbest as [Hlt | [Heq _]]; [lia | discriminate].
Qed.

(** At a severity of 9 an available ambulance is dispatched although
    [typePriority = [drone]] does not list its type. *)
Example unlisted_type_dispatched_at_high_severity :
  exists d,
    selectResource defaultConfig severeIncident [ambulanceAt3km] (Some [drone])
      = Dispatch d /\
    decidedResource d = resourceId ambulanceAt3km.
Proof.
  destruct (selectResource_spec defaultConfig severeIncident
              [ambulanceAt3km] (Some [drone]))
    as [r [Hsel [Hin _]]]; [eligible_candidate ambulanceAt3km |].
  eexists. split; [exact Hsel |].
  destruct Hin as [<- | []]. reflexivity.
Qed.

(** Without a priority list, of two available ambulances 3 km and 8 km away
    the one 3 km away is chosen. *)
Example nearer_of_two_ambulances :
  exists d,
    selectResource defaultConfig incidentAtOrigin
      [ambulanceAt8km; ambulanceAt3km] None = Dispatch d /\
    decidedResource d = resourceId ambulanceAt3km /\
    decidedDistanceKm d = 3.
Proof.
  destruct (selectResource_spec defaultConfig incidentAtOrigin
              [ambulanceAt8km; ambulanceAt3km] None)
    as [r [Hsel [Hin [_ [_ Hbest]]]]]; [eligible_candidate ambulanceAt3km |].
  eexists. split; [exact Hsel |].
  destruct Hin as [<- | [<- | []]].
  - exfalso.
    assert (In ambulanceAt3km [ambulanceAt8km; ambulanceAt3km]) as Hd
      by (simpl; tauto).
    specialize (Hbest ambulanceAt3km Hd eq_refl eq_refl).
    unfold atLeastAsGood in Hbest. simpl in Hbest.
    change (distanceKm (northOf 8) origin) with
      (distanceKm (resourceLocation ambulanceAt8km) origin) in Hbest.
    pose proof northOf_3 as H3. pose proof northOf_8 as H8.
    simpl in Hbest. rewrite H3, H8 in Hbest.
    destruct Hbest as [Hlt | [_ [Hlt | [Heq _]]]]; [lia | lra | lra].
  - split; [reflexivity |]. simpl. exact northOf_3.
Qed.

(** C1 as stated fails on the selection of section 4.2: an available
    candidate need not be eligible.  At severity 1, below the threshold of
    7, with [typePriority = [drone]] the only candidate, an available
    ambulance, is of an unlisted type: the eligible set is empty and no
    resource is returned. *)
Lemma unlisted_type_not_dispatched_at_low_severity :
  [drone] <> [] /\
  (exists r, In r [ambulanceAt3km] /\ resourceStatus r = available) /\
  selectResource defaultConfig minorIncident [ambulanceAt3km] (Some [drone])
    = NoResourceAvailable /\
  ~ (forall (cfg : Config) (incident : Incident)
            (candidates : list Resource) (typePriority : list ResourceType),
        typePriority <> [] ->
        (exists r, In r candidates /\ resourceStatus r = available) ->
        exists d,
          selectResource cfg incident candidates (Some typePriority)
            = Dispatch d).
Proof.
  assert (selectResource defaultConfig minorIncident [ambulanceAt3km]
            (Some [drone]) = NoResourceAvailable) as Hnone by reflexivity.
  assert (exists r, In r [ambulanceAt3km] /\ resourceStatus r = available)
    as Hav by (exists ambulanceAt3km; split; [left |]; reflexivity).
  split; [discriminate |]. split; [exact Hav |]. split; [exact Hnone |].
  intros Hall.
  destruct (Hall defaultConfig minorIncident [ambulanceAt3km] [drone])
    as [d Hd]; [discriminate | exact Hav |].
  rewrite Hnone in Hd. discriminate.
Qed.

(** C1, amended.  Whenever some candidate is eligible (available, and of a
    type listed in [typePriority] unless the severity of the incident
    reaches the high-severity threshold) and a non-empty [typePriority] is
    supplied, [selectResource] dispatches an eligible candidate whose type
    comes earliest in [typePriority] among the available candidates (a
    listed type before any unlisted one), however near the candidates of
    other types are; among the available candidates of that same priority
    group it is a nearest one.  When no candidate is eligible, available
    or not, the result is [NoResourceAvailable].  With
    [typePriority = [drone]] a drone 8 km away is chosen over an ambulance
    3 km away; with no priority list and two ambulances 3 km and 8 km away,
    the one 3 km away is chosen. *)
Theorem selectResource_type_priority_first :
  (forall (cfg : Config) (incident : Incident) (candidates : list Resource)
          (typePriority : list ResourceType),
      typePriority <> [] ->
      (exists r, In r candidates /\ resourceStatus r = available /\
                 (In (resourceType r) typePriority \/
                  (highSeverityThreshold cfg <= severity incident)%Q)) ->
      exists r d,
        selectResource cfg incident candidates (Some typePriority)
          = Dispatch d /\
        decidedResource d = resourceId r /\
        decidedDistanceKm d =
          distanceKm (resourceLocation r) (incidentLocation incident) /\
        In r candidates /\ resourceStatus r = available /\
        (In (resourceType r) typePriority \/
         (highSeverityThreshold cfg <= severity incident)%Q) /\
        forall c, In c candidates -> resourceStatus c = available ->
          (typeIndex (resourceType r) typePriority
           <= typeIndex (resourceType c) typePriority)%nat /\
          (In (resourceType c) typePriority ->
           In (resourceType r) typePriority) /\
          (typeIndex (resourceType r) typePriority
           = typeIndex (resourceType c) typePriority ->
           distanceKm (resourceLocation r) (incidentLocation incident)
           <= distanceKm (resourceLocation c) (incidentLocation incident))) /\
  (forall (cfg : Config) (incident : Incident) (candidates : list Resource)
          (typePriority : list ResourceType),
      (forall r, In r candidates -> resourceStatus r = available ->
                 ~ In (resourceType r) typePriority /\
                 (severity incident < highSeverityThreshold cfg)%Q) ->
      selectResource cfg incident candidates (Some typePriority)
        = NoResourceAvailable) /\
  (exists d,
      selectResource defaultConfig incidentAtOrigin
        [ambulanceAt3km; droneAt8km] (Some [drone]) = Dispatch d /\
      decidedResource d = resourceId droneAt8km /\
      decidedDistanceKm d = 8) /\
  (exists d,
      selectResource defaultConfig incidentAtOrigin
        [ambulanceAt8km; ambulanceAt3km] None = Dispatch d /\
      decidedResource d = resourceId ambulanceAt3km /\
      decidedDistanceKm d = 3).
Proof.
  split; [| split; [| split;
            [exact (proj2 (proj2 drone_over_nearer_ambulance))
            | exact nearer_of_two_ambulances]]].
  - intros cfg incident candidates typePriority _ [r0 [Hin0 [Hav0 Hel0]]].
    destruct (selectResource_spec cfg incident candidates (Some typePriority))
      as [r [Hsel [Hin [Hr [Hel Hbest]]]]].
    { exists r0. split; [exact Hin0 |]. split; [exact Hav0 |].
      apply isEligible_iff. exact Hel0. }
    apply isEligible_iff in Hel.
    exists r. eexists. split; [exact Hsel |].
    split; [reflexivity |]. split; [reflexivity |].
    split; [exact Hin |]. split; [exact Hr |]. split; [exact Hel |].
    intros c Hc Hcav.
    destruct (isEligible cfg incident (Some typePriority) c) eqn:Hcel.
    + specialize (Hbest c Hc Hcav Hcel).
      unfold atLeastAsGood in Hbest. simpl in Hbest.
      assert (typeIndex (resourceType r) typePriority
              <= typeIndex (resourceType c) typePriority)%nat as Hle
        by (destruct Hbest as [Hlt | [Heq _]]; lia).
      split; [exact Hle |]. split.
      * intros Hlisted. apply typeIndex_listed.
        apply typeIndex_listed in Hlisted. lia.
      * intros Heq.
        destruct Hbest as [Hlt | [_ [Hlt | [Hd _]]]]; [lia | lra | lra].
    + assert (~ In (resourceType c) typePriority /\
              ~ (highSeverityThreshold cfg <= severity incident)%Q)
        as [Hcl Hlow].
      { split; intros H;
          assert (isEligible cfg incident (Some typePriority) c = true) as Ht
            by (apply isEligible_iff; tauto);
          congruence. }
      destruct Hel as [Hrl | Hhigh]; [| contradiction].
      pose proof (proj1 (typeIndex_listed _ _) Hrl) as Hrlt.
      pose proof (typeIndex_le_length (resourceType c) typePriority) as Hcle.
      assert (typeIndex (resourceType c) typePriority = length typePriority)
        as Hceq.
      { destruct (Nat.eq_dec (typeIndex (resourceType c) typePriority)
                             (length typePriority)) as [He | Hne];
          [exact He |].
        exfalso. apply Hcl. apply typeIndex_listed. lia. }
      split; [lia |]. split; [intros Hc'; contradiction | intros Heq; lia].
  - intros cfg incident candidates typePriority Hnone.
    apply selectResource_none. intros r Hin Hav.
    destruct (Hnone r Hin Hav) as [Hnl Hlow].
    destruct (isEligible cfg incident (Some typePriority) r) eqn:Hel;
      [| reflexivity].
    apply isEligible_iff in Hel. destruct Hel as [Hl | Hhigh];
      [contradiction |].
    exfalso. apply (Qlt_not_le _ _ Hlow). exact Hhigh.
Qed.

Lemma selectResource_type_priority_first_witness :
  (exists r d,
      selectResource defaultConfig incidentAtOrigin
        [droneAt8km; ambulanceAt3km; ambulanceAt8km] (Some [ambulance; drone])
        = Dispatch d /\
      decidedResource d = resourceId r /\
      resourceType r = ambulance) /\
  selectResource defaultConfig minorIncident
    [ambulanceAt3km; ambulanceAt8km] (Some [drone]) = NoResourceAvailable.
Proof.
  split.
  - assert ([ambulance; drone] <> []) as Hne by discriminate.
    assert (exists r, In r [droneAt8km; ambulanceAt3km; ambulanceAt8km] /\
                      resourceStatus r = available /\
                      (In (resourceType r) [ambulance; drone] \/
                       (highSeverityThreshold defaultConfig
                        <= severity incidentAtOrigin)%Q)) as Hav.
    { exists droneAt8km. split; [left; reflexivity |].
      split; [reflexivity | left; right; left; reflexivity]. }
    destruct (proj1 selectResource_type_priority_first defaultConfig
                incidentAtOrigin [droneAt8km; ambulanceAt3km; ambulanceAt8km]
                [ambulance; drone] Hne Hav)
      as [r [d [Hsel [Hid [_ [Hin [_ [_ Hbest]]]]]]]].
    exists r, d. split; [exact Hsel |]. split; [exact Hid |].
    assert (In ambulanceAt3km [droneAt8km; ambulanceAt3km; ambulanceAt8km])
      as Ha by (right; left; reflexivity).
    destruct (Hbest ambulanceAt3km Ha eq_refl) as [Hle _].
    destruct Hin as [<- | [<- | [<- | []]]]; simpl in Hle;
      [lia | reflexivity | reflexivity].
  - apply (proj1 (proj2 selectResource_type_priority_first)).
    intros r [<- | [<- | []]] _; (split; [| reflexivity]);
      intros [H | []]; discriminate H.
Defined.

End ResourceSelectorFacts.

(** ** IncidentClusterer *)

Module IncidentClustererFacts.
Import GeoMath DataModel IncidentClusterer NumberFacts.

Section Grouping.

Variable A : Type.
Variable near : A -> A -> bool.
Hypothesis near_sym : forall x y, near x y = near y x.

Lemma absorb_eq (x : A) (groups : list (list A)) :
  absorb near x groups =
  (x :: concat (filter (touches near x) groups))
    :: filter (fun g => negb (touches near x g)) groups.
Proof. unfold absorb. rewrite partition_as_filter. reflexivity. Qed.

Lemma touches_iff (x : A) (g : list A) :
  touches near x g = true <-> exists y, In y g /\ near x y = true.
Proof. unfold touches. apply existsb_exists. Qed.

Lemma linked_members (l : list A) (x y : A) :
  linked near l x y -> In x l /\ In y l.
Proof.
  induction 1 as [x Hx | x y z Hx Hy Hn Hl [_ IH]]; split; assumption.
Qed.

Lemma linked_incl (l l' : list A) (x y : A) :
  (forall a, In a l -> In a l') -> linked near l x y -> linked near l' x y.
Proof.
  intros Hincl. induction 1 as [x Hx | x y z Hx Hy Hn Hl IH].
  - apply linked_refl. auto.
  - apply linked_step with y; auto.
Qed.

Lemma linked_trans (l : list A) (x y z : A) :
  linked near l x y -> linked near l y z -> linked near l x z.
Proof.
  induction 1 as [x Hx | x w y Hx Hw Hn Hl IH]; intros Hyz.
  - exact Hyz.
  - apply linked_step with w; auto.
Qed.

Lemma linked_sym (l : list A) (x y : A) :
  linked near l x y -> linked near l y x.
Proof.
  induction 1 as [x Hx | x w y Hx Hw Hn Hl IH].
  - apply linked_refl. exact Hx.
  - apply linked_trans with w; [exact IH |].
    apply linked_step with x; [exact Hw | exact Hx | | apply linked_refl, Hx].
    rewrite near_sym. exact Hn.
Qed.

Lemma grouped_nil : grouped near [] [].
Proof. constructor; simpl; intros; contradiction. Qed.

Lemma grouped_absorb (x : A) (l : list A) (groups : list (list A)) :
  grouped near l groups -> grouped near (x :: l) (absorb near x groups).
Proof.
  intros [Hcover Hsound Hinh Hconn Hclosed]. rewrite absorb_eq.
  set (fresh := x :: concat (filter (touches near x) groups)).
  assert (forall z, In z fresh <->
            z = x \/ exists g, In g groups /\ touches near x g = true /\ In z g)
    as Hfresh.
  { intros z. unfold fresh. simpl. rewrite in_concat. split.
    - intros [Hz | [g [Hg Hz]]]; [left; auto |].
      apply filter_In in Hg. right. exists g. tauto.
    - intros [Hz | [g [Hg [Ht Hz]]]]; [left; auto |].
      right. exists g. split; [apply filter_In; tauto | exact Hz]. }
  assert (forall g, In g (filter (fun g => negb (touches near x g)) groups) <->
            In g groups /\ touches near x g = false) as Hapart.
  { intros g. rewrite filter_In, negb_true_iff. reflexivity. }
  assert (forall a, In a l -> In a (x :: l)) as Hincl by (intros; right; assumption).
  assert (forall z, In z fresh -> linked near (x :: l) x z) as Hfrom.
  { intros z Hz. apply Hfresh in Hz. destruct Hz as [-> | [g [Hg [Ht Hz]]]].
    - apply linked_refl. left. reflexivity.
    - apply touches_iff in Ht. destruct Ht as [w [Hw Hn]].
      apply linked_step with w; [left; reflexivity | | exact Hn |].
      + right. apply (Hsound g); assumption.
      + apply linked_incl with l; [exact Hincl |]. apply (Hconn g); assumption. }
  constructor.
  - intros y [<- | Hy].
    + exists fresh. split; [left; reflexivity | apply Hfresh; left; reflexivity].
    + destruct (Hcover y Hy) as [g [Hg Hyg]].
      destruct (touches near x g) eqn:Ht.
      * exists fresh. split; [left; reflexivity |].
        apply Hfresh. right. exists g. tauto.
      * exists g. split; [right; apply Hapart; tauto | exact Hyg].
  - intros g z [<- | Hg] Hz.
    + apply Hfresh in Hz. destruct Hz as [-> | [g [Hg [_ Hz]]]].
      * left. reflexivity.
      * right. apply (Hsound g); assumption.
    + apply Hapart in Hg. right. apply (Hsound g); tauto.
  - intros g [<- | Hg].
    + exists x. apply Hfresh. left. reflexivity.
    + apply Hapart in Hg. apply Hinh. tauto.
  - intros g u v [<- | Hg] Hu Hv.
    + apply linked_trans with x; [apply linked_sym |]; apply Hfrom; assumption.
    + apply Hapart in Hg. apply linked_incl with l; [exact Hincl |].
      apply (Hconn g); tauto.
  - intros g z y [<- | Hg] Hz Hy Hn.
    + apply Hfresh. destruct Hy as [<- | Hy]; [left; reflexivity | right].
      apply Hfresh in Hz. destruct Hz as [-> | [g [Hg [Ht Hz]]]].
      * destruct (Hcover y Hy) as [g [Hg Hyg]].
        exists g. split; [exact Hg |]. split; [| exact Hyg].
        apply touches_iff. exists y. tauto.
      * exists g. split; [exact Hg |]. split; [exact Ht |].
        apply (Hclosed g z y); assumption.
    + apply Hapart in Hg. destruct Hg as [Hg Ht].
      destruct Hy as [<- | Hy].
      * exfalso. rewrite near_sym in Hn.
        assert (touches near x g = true) as Ht'
          by (apply touches_iff; exists z; tauto).
        congruence.
      * apply (Hclosed g z y); assumption.
Qed.

Lemma grouped_components (l : list A) : grouped near l (components near l).
Proof.
  induction l as [| x l IH]; simpl.
  - apply grouped_nil.
  - apply grouped_absorb, IH.
Qed.

(** A group is the class of any of its members. *)
Lemma group_is_class (l : list A) (groups : list (list A)) (g : list A) (x : A) :
  grouped near l groups -> In g groups -> In x g ->
  forall y, In y g <-> linked near l x y.
Proof.
  intros Hgr Hg Hx y. split.
  - intros Hy. apply (grouped_connected Hgr g); assumption.
  - intros Hl. revert Hx.
    induction Hl as [x Hxl | x w y Hxl Hwl Hn Hl IH]; intros Hx.
    + exact Hx.
    + apply IH. apply (grouped_closed Hgr g x w); assumption.
Qed.

Lemma components_same_elements (l l' : list A) :
  (forall a, In a l <-> In a l') ->
  forall g, In g (components near l) ->
    exists g', In g' (components near l') /\ forall y, In y g <-> In y g'.
Proof.
  intros Hsame g Hg.
  pose proof (grouped_components l) as Hgr.
  pose proof (grouped_components l') as Hgr'.
  destruct (grouped_inhabited Hgr g Hg) as [x Hx].
  assert (In x l') as Hxl' by (apply Hsame, (grouped_sound Hgr g x); assumption).
  destruct (grouped_cover Hgr' x Hxl') as [g' [Hg' Hx']].
  exists g'. split; [exact Hg' |]. intros y.
  rewrite (group_is_class l _ g x Hgr Hg Hx y).
  rewrite (group_is_class l' _ g' x Hgr' Hg' Hx' y).
  split; apply linked_incl; intros a; apply Hsame.
Qed.

End Grouping.

Lemma within_sym (radiusKm : R) (a b : Incident) :
  within radiusKm a b = within radiusKm b a.
Proof. unfold within. rewrite GeoMathFacts.distanceKm_sym. reflexivity. Qed.

Lemma groupsOf_grouped (incidents : list Incident) (radiusKm : R) :
  grouped (within radiusKm) (filter eligible incidents)
          (groupsOf incidents radiusKm).
Proof. apply grouped_components, within_sym. Qed.

Lemma sameMembers_of_groups (g g' : list Incident) :
  (forall y, In y g <-> In y g') ->
  sameMembers (summarize g) (summarize g').
Proof.
  intros Hsame i. unfold summarize. simpl. rewrite !in_map_iff.
  split; intros [y [Hy Hin]]; exists y; (split; [exact Hy | apply Hsame, Hin]).
Qed.

Lemma cluster_same_elements (l l' : list Incident) (radiusKm : R) :
  (forall a, In a l <-> In a l') ->
  forall c, In c (cluster l radiusKm) ->
    exists d, In d (cluster l' radiusKm) /\ sameMembers c d.
Proof.
  intros Hsame c Hc. unfold cluster in *.
  apply in_map_iff in Hc. destruct Hc as [g [<- Hg]].
  destruct (components_same_elements Incident (within radiusKm)
              (within_sym radiusKm)
              (filter eligible l) (filter eligible l')) with (g := g)
    as [g' [Hg' Hmem]].
  - intros a. rewrite !filter_In, Hsame. reflexivity.
  - exact Hg.
  - exists (summarize g'). split; [apply in_map, Hg' |].
    apply sameMembers_of_groups, Hmem.
Qed.

Lemma sameMembers_sym (c d : Cluster) : sameMembers c d -> sameMembers d c.
Proof. intros H i. symmetry. apply H. Qed.

Lemma samePartition_same_elements (l l' : list Incident) (radiusKm : R) :
  (forall a, In a l <-> In a l') ->
  samePartition (cluster l radiusKm) (cluster l' radiusKm).
Proof.
  intros Hsame. split.
  - apply cluster_same_elements, Hsame.
  - intros d Hd.
    destruct (cluster_same_elements l' l radiusKm) with (c := d)
      as [c [Hc Hcd]]; [intros a; symmetry; apply Hsame | exact Hd |].
    exists c. split; [exact Hc | apply sameMembers_sym, Hcd].
Qed.

(** C5.  For a fixed radius the clusters of a list of incidents and of any
    permutation of it have the same membership sets, whatever the order of
    the cluster lists, and so have two calls on the same list.  Each group
    is a connected component of the relation "at most [radiusKm] apart" on
    the eligible incidents: its members are exactly the incidents linked to
    any one of them by a chain of such pairs. *)
Theorem cluster_order_independent
    (incidents incidents' : list Incident) (radiusKm : R) :
  Permutation incidents incidents' ->
  samePartition (cluster incidents radiusKm) (cluster incidents' radiusKm) /\
  samePartition (cluster incidents radiusKm) (cluster incidents radiusKm) /\
  (forall g x, In g (groupsOf incidents radiusKm) -> In x g ->
     forall y, In y g <->
               linked (within radiusKm) (filter eligible incidents) x y) /\
  (forall x, In x incidents -> eligible x = true ->
     exists c, In c (cluster incidents radiusKm) /\
               In (incidentId x) (memberIncidentIds c)).
Proof.
  intros Hperm. split; [| split; [| split]].
  - apply samePartition_same_elements. intros a. split.
    + apply Permutation_in. exact Hperm.
    + apply Permutation_in. apply Permutation_sym. exact Hperm.
  - apply samePartition_same_elements. intros a. reflexivity.
  - intros g x Hg Hx y.
    apply (group_is_class Incident (within radiusKm)
             _ _ g x (groupsOf_grouped incidents radiusKm) Hg Hx).
  - intros x Hx He.
    destruct (grouped_cover (groupsOf_grouped incidents radiusKm) x)
      as [g [Hg Hxg]]; [apply filter_In; split; assumption |].
    exists (summarize g). split.
    + unfold cluster. apply in_map. exact Hg.
    + unfold summarize. simpl. apply in_map. exact Hxg.
Qed.

Lemma within_incidentNorth (radiusKm a b : R) (i j : Z) :
  (0 <= a <= b)%R -> (b <= 6371 * PI)%R ->
  within radiusKm (incidentNorth i a) (incidentNorth j b)
  = Rleb (b - a) radiusKm.
Proof.
  intros Hab Hb. unfold within, incidentNorth. simpl.
  rewrite GeoMathFacts.distanceKm_northOf by assumption. reflexivity.
Qed.

(** Two incidents 30 km apart with a radius of 2 km: two singletons. *)
Example far_apart_incidents_stay_apart :
  map memberIncidentIds
      (cluster [incidentNorth 1 0; incidentNorth 2 30] 2)
  = [[1%Z]; [2%Z]].
Proof.
  pose proof PI2_1 as Hpi.
  unfold cluster, groupsOf. simpl filter. unfold components. simpl fold_right.
  unfold absorb at 2. simpl partition.
  unfold absorb. simpl partition.
  rewrite (within_incidentNorth 2 0 30) by lra.
  rewrite Rleb_fails by lra. reflexivity.
Qed.

(** Chained proximity: 0 km, 1 km and 2.5 km with a radius of 2 km form one
    cluster although the outer two are 2.5 km apart. *)
Example chained_incidents_form_one_cluster :
  within 2 (incidentNorth 1 0) (incidentNorth 3 2.5) = false /\
  map memberIncidentIds
      (cluster [incidentNorth 1 0; incidentNorth 2 1; incidentNorth 3 2.5] 2)
  = [[1%Z; 2%Z; 3%Z]].
Proof.
  pose proof PI2_1 as Hpi.
  split.
  { rewrite within_incidentNorth by lra. apply Rleb_fails. lra. }
  unfold cluster, groupsOf. simpl filter. unfold components. simpl fold_right.
  unfold absorb at 3. simpl partition.
  unfold absorb at 2. simpl partition.
  rewrite (within_incidentNorth 2 1 2.5) by lra.
  rewrite Rleb_holds by lra. simpl.
  unfold absorb. simpl partition.
  rewrite (within_incidentNorth 2 0 1) by lra.
  rewrite Rleb_holds by lra. reflexivity.
Qed.

Lemma cluster_order_independent_witness :
  samePartition
    (cluster [incidentNorth 3 2.5; incidentNorth 1 0; incidentNorth 2 1] 2)
    (cluster [incidentNorth 1 0; incidentNorth 2 1; incidentNorth 3 2.5] 2).
Proof.
  refine (proj1 (cluster_order_independent
                   [incidentNorth 3 2.5; incidentNorth 1 0; incidentNorth 2 1]
                   [incidentNorth 1 0; incidentNorth 2 1; incidentNorth 3 2.5]
                   2 _)).
  apply (Permutation_cons_app
           [incidentNorth 1 0; incidentNorth 2 1] [] (incidentNorth 3 2.5)).
  simpl. apply Permutation_refl.
Defined.

End IncidentClustererFacts.

(** ** AssistanceMatcher *)

Module AssistanceMatcherFacts.
Import GeoMath DataModel AssistanceMatcher NumberFacts.
Local Open Scope R_scope.

Lemma ranksBefore_true (a b : RankedOffer) :
  ranksBefore a b = true <-> rankedOrder a b.
Proof.
  unfold ranksBefore, rankedOrder.
  rewrite orb_true_iff, andb_true_iff, Rltb_true, Reqb_true, Z.leb_le.
  reflexivity.
Qed.

Lemma ranksBefore_false (a b : RankedOffer) :
  ranksBefore a b = false -> rankedOrder b a.
Proof.
  unfold ranksBefore, rankedOrder. intros H.
  apply orb_false_iff in H. destruct H as [Hlt H].
  apply Rltb_false in Hlt.
  destruct (Req_dec_T (offerDistanceKm a) (offerDistanceKm b)) as [He | Hne];
    [| left; lra].
  rewrite (proj2 (Reqb_true _ _) He) in H. simpl in H.
  apply Z.leb_gt in H. right. split; [lra | lia].
Qed.

Lemma rankedOrder_trans (a b c : RankedOffer) :
  rankedOrder a b -> rankedOrder b c -> rankedOrder a c.
Proof.
  unfold rankedOrder.
  intros [Hab | [Hab Hab']] [Hbc | [Hbc Hbc']];
    try (left; lra). right. split; [lra | lia].
Qed.

Lemma insertRanked_perm (x : RankedOffer) (l : list RankedOffer) :
  Permutation (x :: l) (insertRanked x l).
Proof.
  induction l as [| y rest IH]; simpl.
  - apply Permutation_refl.
  - destruct (ranksBefore x y).
    + apply Permutation_refl.
    + eapply perm_trans; [apply perm_swap |]. apply perm_skip, IH.
Qed.

Lemma sortRanked_perm (l : list RankedOffer) : Permutation l (sortRanked l).
Proof.
  induction l as [| x rest IH]; simpl.
  - apply perm_nil.
  - eapply perm_trans; [apply perm_skip, IH | apply insertRanked_perm].
Qed.

Lemma insertRanked_hd (x y : RankedOffer) (l : list RankedOffer) :
  rankedOrder y x -> HdRel rankedOrder y l ->
  HdRel rankedOrder y (insertRanked x l).
Proof.
  intros Hyx Hhd. destruct l as [| z rest]; simpl.
  - constructor. exact Hyx.
  - inversion Hhd; subst. destruct (ranksBefore x z); constructor; assumption.
Qed.

Lemma insertRanked_sorted (x : RankedOffer) (l : list RankedOffer) :
  Sorted rankedOrder l -> Sorted rankedOrder (insertRanked x l).
Proof.
  induction 1 as [| y rest Hsorted IH Hhd]; simpl.
  - repeat constructor.
  - destruct (ranksBefore x y) eqn:Hxy.
    + constructor; [constructor; assumption |].
      constructor. apply ranksBefore_true, Hxy.
    + constructor; [exact IH |].
      apply insertRanked_hd; [apply ranksBefore_false, Hxy | exact Hhd].
Qed.

Lemma sortRanked_sorted (l : list RankedOffer) :
  StronglySorted rankedOrder (sortRanked l).
Proof.
  apply Sorted_StronglySorted.
  - intros a b c. apply rankedOrder_trans.
  - induction l as [| x rest IH]; simpl.
    + constructor.
    + apply insertRanked_sorted, IH.
Qed.

Section StronglySortedPrefix.

Variable X : Type.
Variable le : X -> X -> Prop.

Lemma StronglySorted_firstn (n : nat) (l : list X) :
  StronglySorted le l -> StronglySorted le (firstn n l).
Proof.
  revert l. induction n as [| n IH]; intros l Hs; simpl.
  - constructor.
  - destruct l as [| x rest]; [constructor |].
    inversion Hs as [| ? ? Hrest Hall]; subst.
    constructor; [apply IH, Hrest |].
    rewrite Forall_forall in *. intros y Hy. apply Hall.
    rewrite <- (firstn_skipn n rest). apply in_or_app. left. exact Hy.
Qed.

Lemma StronglySorted_split (n : nat) (l : list X) :
  StronglySorted le l ->
  forall a b, In a (firstn n l) -> In b (skipn n l) -> le a b.
Proof.
  revert l. induction n as [| n IH]; intros l Hs a b Ha Hb; simpl in *.
  - contradiction.
  - destruct l as [| x rest]; [contradiction |].
    inversion Hs as [| ? ? Hrest Hall]; subst.
    destruct Ha as [<- | Ha].
    + rewrite Forall_forall in Hall. apply Hall.
      rewrite <- (firstn_skipn n rest). apply in_or_app. right. exact Hb.
    + apply (IH rest Hrest a b Ha Hb).
Qed.

End StronglySortedPrefix.

(** Sorting commutes with a change that leaves distance and time alone. *)
Lemma sortRanked_map (h : RankedOffer -> RankedOffer) :
  (forall a b, ranksBefore (h a) (h b) = ranksBefore a b) ->
  forall l, sortRanked (map h l) = map h (sortRanked l).
Proof.
  intros Hh.
  assert (forall x l, insertRanked (h x) (map h l) = map h (insertRanked x l))
    as Hins.
  { intros x l. induction l as [| y rest IH]; simpl; [reflexivity |].
    rewrite Hh. destruct (ranksBefore x y); simpl; [reflexivity |].
    rewrite IH. reflexivity. }
  induction l as [| x rest IH]; simpl; [reflexivity |].
  rewrite IH. apply Hins.
Qed.

Lemma pool_default (offers : list AssistanceOffer) :
  filter (fun o => false || notAccepted o) offers = filter notAccepted offers.
Proof. apply filter_ext. intros o. reflexivity. Qed.

Lemma rankOffers_unfold (incident : Incident) (offers : list AssistanceOffer)
    (limit : option nat) :
  rankOffers incident offers limit =
  truncate limit
    (sortRanked (map (rankOne defaultSpeedKmh incident)
                     (filter notAccepted offers))).
Proof. unfold rankOffers, rankOffersWith. rewrite pool_default. reflexivity. Qed.

Lemma truncate_incl {X : Type} (limit : option nat) (l : list X) (x : X) :
  In x (truncate limit l) -> In x l.
Proof.
  destruct limit as [n |]; simpl; [| auto].
  intros H. rewrite <- (firstn_skipn n l). apply in_or_app. left. exact H.
Qed.

Lemma truncate_map {X Y : Type} (h : X -> Y) (limit : option nat) (l : list X) :
  truncate limit (map h l) = map h (truncate limit l).
Proof. destruct limit as [n |]; simpl; [apply firstn_map | reflexivity]. Qed.

Lemma filter_withRating (f : AssistanceOffer -> option Q)
    (offers : list AssistanceOffer) :
  filter notAccepted (map (withRating f) offers)
  = map (withRating f) (filter notAccepted offers).
Proof.
  induction offers as [| o rest IH]; [reflexivity |].
  cbn [map filter]. rewrite IH.
  replace (notAccepted (withRating f o)) with (notAccepted o) by reflexivity.
  destruct (notAccepted o); reflexivity.
Qed.

(** A helper 2 km away at the assumed 40 km/h arrives in 3 minutes. *)
Example arrival_of_helper_2km_away :
  offerDistanceKm (rankOne defaultSpeedKmh ResourceSelector.incidentAtOrigin
                           (offerNorth 1 2 0)) = 2 /\
  offerArrivalMinutes (rankOne defaultSpeedKmh ResourceSelector.incidentAtOrigin
                               (offerNorth 1 2 0)) = 3.
Proof.
  assert (distanceKm (northOf 2) origin = 2) as Hd.
  { apply GeoMathFacts.distanceKm_northOf_origin. pose proof PI2_1. lra. }
  unfold rankOne, defaultSpeedKmh. simpl. rewrite Hd. split; [reflexivity | field].
Qed.

(** C7.  [rankOffers] returns the open offers in ascending order of the
    distance from helper to incident, offers at the same distance in
    ascending order of [offeredAt]; the rating plays no part in the order;
    without a limit the result holds every open offer; with a limit [n] it
    is the first [n] entries of that full ranking, [n] of them or all the
    open offers when there are fewer, so no offer that is left out ranks
    before one that is kept. *)
Theorem rankOffers_sorted_by_distance
    (incident : Incident) (offers : list AssistanceOffer)
    (limit : option nat) :
  let ranked := rankOffers incident offers limit in
  let full := rankOffers incident offers None in
  StronglySorted rankedOrder ranked /\
  ranked = match limit with
           | None => full
           | Some n => firstn n full
           end /\
  Permutation (map offer full) (filter notAccepted offers) /\
  (forall r, In r ranked ->
     offerDistanceKm r =
     distanceKm (helperLocation (offer r)) (incidentLocation incident)) /\
  (forall n kept dropped,
     limit = Some n -> In kept ranked -> In dropped (skipn n full) ->
     rankedOrder kept dropped) /\
  (forall n, limit = Some n ->
     length ranked = Nat.min n (length (filter notAccepted offers))) /\
  (forall f : AssistanceOffer -> option Q,
     map (fun r => offerId (offer r))
         (rankOffers incident (map (withRating f) offers) limit)
     = map (fun r => offerId (offer r)) ranked).
Proof.
  intros ranked full. subst ranked full. rewrite !rankOffers_unfold.
  set (pool := filter notAccepted offers).
  set (sorted := sortRanked (map (rankOne defaultSpeedKmh incident) pool)).
  change (truncate None sorted) with sorted.
  assert (StronglySorted rankedOrder sorted) as Hsorted
    by apply sortRanked_sorted.
  assert (Permutation (map (rankOne defaultSpeedKmh incident) pool) sorted)
    as Hperm by apply sortRanked_perm.
  split; [| split; [| split; [| split; [| split; [| split]]]]].
  - destruct limit as [n |]; simpl; [apply StronglySorted_firstn |]; exact Hsorted.
  - destruct limit as [n |]; reflexivity.
  - apply Permutation_sym.
    replace pool with (map offer (map (rankOne defaultSpeedKmh incident) pool))
      at 1.
    + apply Permutation_map, Hperm.
    + rewrite map_map. simpl. apply map_id.
  - intros r Hr. apply truncate_incl in Hr.
    apply (Permutation_in _ (Permutation_sym Hperm)) in Hr.
    apply in_map_iff in Hr. destruct Hr as [o [<- _]]. reflexivity.
  - intros n kept dropped -> Hk Hd. simpl in Hk.
    apply (StronglySorted_split _ _ n sorted Hsorted); assumption.
  - intros n ->. simpl. rewrite length_firstn.
    rewrite <- (Permutation_length Hperm), length_map. reflexivity.
  - intros f. rewrite rankOffers_unfold, filter_withRating. fold pool.
    set (h := fun r => mkRanked (withRating f (offer r))
                                (offerDistanceKm r) (offerArrivalMinutes r)).
    rewrite map_map.
    replace (map (fun o => rankOne defaultSpeedKmh incident (withRating f o)) pool)
      with (map h (map (rankOne defaultSpeedKmh incident) pool))
      by (rewrite map_map; reflexivity).
    rewrite sortRanked_map by reflexivity.
    fold sorted. rewrite truncate_map, map_map. reflexivity.
Qed.

Lemma findOffer_markAccepted (now id : Z) (offers : list AssistanceOffer)
    (o : AssistanceOffer) :
  findOffer id offers = Some o ->
  exists o', findOffer id (markAccepted now id offers) = Some o' /\
             acceptedAt o' = Some now.
Proof.
  unfold findOffer, markAccepted.
  induction offers as [| x rest IH]; simpl; [discriminate |].
  destruct (Z.eqb (offerId x) id) eqn:Hx; simpl.
  - intros _. rewrite Hx. eexists. split; reflexivity.
  - rewrite Hx. exact IH.
Qed.

(** C6.  When the offer with the given id is in the supplied set and its
    [acceptedAt] is null, [acceptOffer] answers [AcceptedOffer]; once the
    caller has recorded the acceptance, [acceptOffer] on the same id answers
    [AlreadyAccepted]; so of two requests in sequence on that id the first
    is accepted and the second is not. *)
Theorem acceptOffer_only_once
    (offers : list AssistanceOffer) (id : Z) (o : AssistanceOffer)
    (now1 now2 : Z) :
  findOffer id offers = Some o ->
  acceptedAt o = None ->
  acceptOffer id offers = AcceptedOffer /\
  acceptOffer id (markAccepted now1 id offers) = AlreadyAccepted /\
  acceptTwice now1 now2 id offers = (AcceptedOffer, AlreadyAccepted).
Proof.
  intros Hfind Hopen.
  assert (acceptOffer id offers = AcceptedOffer) as H1.
  { unfold acceptOffer. rewrite Hfind, Hopen. reflexivity. }
  assert (acceptOffer id (markAccepted now1 id offers) = AlreadyAccepted) as H2.
  { destruct (findOffer_markAccepted now1 id offers o Hfind) as [o' [Hf Ha]].
    unfold acceptOffer. rewrite Hf, Ha. reflexivity. }
  split; [exact H1 |]. split; [exact H2 |].
  unfold acceptTwice, acceptStep. rewrite H1, H2. reflexivity.
Qed.

Lemma acceptOffer_only_once_witness :
  acceptOffer 2 [offerNorth 1 5 10; offerNorth 2 3 20] = AcceptedOffer /\
  acceptOffer 2 (markAccepted 100 2 [offerNorth 1 5 10; offerNorth 2 3 20])
  = AlreadyAccepted /\
  acceptTwice 100 200 2 [offerNorth 1 5 10; offerNorth 2 3 20]
  = (AcceptedOffer, AlreadyAccepted).
Proof.
  apply (acceptOffer_only_once
           [offerNorth 1 5 10; offerNorth 2 3 20] 2 (offerNorth 2 3 20) 100 200);
    reflexivity.
Defined.

End AssistanceMatcherFacts.

(** ** GeoMath: the Haversine value as a great-circle distance *)

Module GeoMathGreatCircle.
Import GeoMath GeoMathFacts.
Local Open Scope R_scope.

(** On the unit quarter circle [atan2] recovers the angle of the point. *)
Lemma atan2_unit_circle (y x : R) :
  0 <= y -> 0 <= x -> x * x + y * y = 1 ->
  sin (atan2 y x) = y /\ cos (atan2 y x) = x.
Proof.
  intros Hy Hx Hcircle. unfold atan2.
  destruct (Rlt_dec 0 x) as [Hpos | Hnpos].
  - assert (1 + (y / x)² = (/ x)²) as Hone.
    { unfold Rsqr.
      replace (1 + y / x * (y / x)) with ((x * x + y * y) / (x * x))
        by (field; lra).
      rewrite Hcircle. field. lra. }
    assert (sqrt (1 + (y / x)²) = / x) as Hroot.
    { rewrite Hone. apply sqrt_Rsqr. left. apply Rinv_0_lt_compat, Hpos. }
    rewrite sin_atan, cos_atan, Hroot. split; field; lra.
  - destruct (Rlt_dec x 0); [lra |].
    assert (x = 0) by lra. subst x.
    assert (y = 1) by nra. subst y.
    destruct (Rlt_dec 0 1); [| lra].
    rewrite sin_PI2, cos_PI2. split; reflexivity.
Qed.

Lemma haversineA_cosine_rule (lat1 lon1 lat2 lon2 : R) :
  1 - 2 * haversineA lat1 lon1 lat2 lon2 =
  sin (toRad lat1) * sin (toRad lat2) +
  cos (toRad lat1) * cos (toRad lat2) * cos (toRad (lon2 - lon1)).
Proof.
  unfold haversineA.
  rewrite (sin_sqr_half (toRad (lat2 - lat1) / 2)), toRad_half_diff.
  rewrite Rmult_assoc.
  rewrite (sin_sqr_half (toRad (lon2 - lon1) / 2)).
  replace (2 * (toRad (lon2 - lon1) / 2)) with (toRad (lon2 - lon1)) by field.
  rewrite cos_minus. field.
Qed.



(** X2.  Longitudes count only through their difference, and a full turn
    does not matter: shifting both longitudes by the same amount, or either
    longitude by 360 degrees, leaves the distance unchanged. *)
Theorem calculateDistance_longitude_invariance (lat1 lon1 lat2 lon2 t : R) :
  calculateDistance lat1 (lon1 + t) lat2 (lon2 + t)
  = calculateDistance lat1 lon1 lat2 lon2 /\
  calculateDistance lat1 lon1 lat2 (lon2 + 360)
  = calculateDistance lat1 lon1 lat2 lon2 /\
  calculateDistance lat1 (lon1 + 360) lat2 lon2
  = calculateDistance lat1 lon1 lat2 lon2.
Proof.
  assert (forall p q u v, calculateDistance p u q (v + 360)
                          = calculateDistance p u q v) as Hwrap.
  { intros p q u v.
    assert (haversineA p u q (v + 360) = haversineA p u q v) as Ha.
    { unfold haversineA.
      replace (toRad (v + 360 - u) / 2) with (toRad (v - u) / 2 + PI)
        by (unfold toRad; field).
      rewrite neg_sin. ring. }
    unfold calculateDistance. rewrite Ha. reflexivity. }
  split; [| split].
  - unfold calculateDistance, haversineA.
    replace (lon2 + t - (lon1 + t)) with (lon2 - lon1) by ring. reflexivity.
  - apply Hwrap.
  - rewrite calculateDistance_sym, Hwrap. apply calculateDistance_sym.
Qed.

Lemma PI_bounds : 3.1415 < PI < 3.1421.
Proof.
  pose proof (PI_2_3_7_ineq 1) as [Hlo Hhi].
  unfold sum_f_R0, tg_alt, PI_2_3_7_tg, Ratan_seq in Hlo, Hhi.
  simpl in Hlo, Hhi.
  split; lra.
Qed.

(** X3.  Along a meridian the distance is the arc length
    [6371 * pi / 180] kilometres per degree of latitude, that is between
    111.19 km and 111.22 km per degree, whatever the common longitude. *)
Theorem calculateDistance_along_meridian (lat1 lat2 lon : R) :
  Rabs (lat2 - lat1) <= 180 ->
  calculateDistance lat1 lon lat2 lon
  = 6371 * (PI / 180) * Rabs (lat2 - lat1) /\
  111.19 * Rabs (lat2 - lat1)
  <= calculateDistance lat1 lon lat2 lon
  <= 111.22 * Rabs (lat2 - lat1).
Proof.
  intros Habs.
  assert (calculateDistance lat1 lon lat2 lon
          = 6371 * (PI / 180) * Rabs (lat2 - lat1)) as Heq.
  { unfold Rabs in *. destruct (Rcase_abs (lat2 - lat1)) as [Hneg | Hpos].
    - rewrite calculateDistance_sym, calculateDistance_meridian by lra.
      unfold toRad. ring.
    - rewrite calculateDistance_meridian by lra. unfold toRad. ring. }
  split; [exact Heq |]. rewrite Heq.
  pose proof PI_bounds as [Hlo Hhi].
  pose proof (Rabs_pos (lat2 - lat1)) as Hnonneg.
  split; nra.
Qed.

Lemma calculateDistance_along_meridian_witness :
  5.559 <= calculateDistance 28.7041 77.1025 28.7541 77.1025 <= 5.561.
Proof.
  assert (Rabs (28.7541 - 28.7041) = 0.05) as Habs
    by (rewrite Rabs_right; lra).
  destruct (calculateDistance_along_meridian 28.7041 28.7541 77.1025)
    as [_ [Hlo Hhi]]; [rewrite Habs; lra |].
  rewrite Habs in Hlo, Hhi. split; lra.
Defined.

End GeoMathGreatCircle.

(** ** The SOS socket hook: alert lists and channel subscriptions *)

Module SOSSocketHookFacts.
Import GeoMath SOSSocket SOSSocketHook NumberFacts.

Lemma firstn_99_of_100 {X : Type} (l : list X) :
  firstn 99 (firstn 100 l) = firstn 99 l.
Proof. rewrite firstn_firstn. reflexivity. Qed.

Lemma firstn_100_cons {X : Type} (a : X) (l : list X) :
  firstn 100 (a :: l) = a :: firstn 99 l.
Proof. reflexivity. Qed.

Lemma inRadius_true (latitude0 longitude0 radiusKm : R) (a : SOSAlert) :
  inRadius latitude0 longitude0 radiusKm a = true <->
  (calculateDistance latitude0 longitude0 (latitude a) (longitude a)
   <= radiusKm)%R.
Proof. unfold inRadius. apply Rleb_true. Qed.

Lemma onAlert_inRadius (latitude0 longitude0 radiusKm : R)
    (a : SOSAlert) (prev : list SOSAlert) :
  SOSSocket.onAlert latitude0 longitude0 radiusKm a prev =
  if inRadius latitude0 longitude0 radiusKm a
  then a :: firstn 99 prev else prev.
Proof.
  unfold SOSSocket.onAlert, inRadius, Rleb, slice99.
  destruct (Rle_dec _ _); reflexivity.
Qed.

Lemma useNearbySOSAlerts_filter
    (latitude0 longitude0 radiusKm : R) (incoming : list SOSAlert) :
  useNearbySOSAlerts latitude0 longitude0 radiusKm incoming =
  firstn 100
    (rev (filter (inRadius latitude0 longitude0 radiusKm) incoming)).
Proof.
  induction incoming as [| a rest IH] using rev_ind.
  - reflexivity.
  - unfold useNearbySOSAlerts in *. rewrite fold_left_app. simpl fold_left.
    rewrite IH, onAlert_inRadius, filter_app. simpl filter.
    destruct (inRadius latitude0 longitude0 radiusKm a).
    + rewrite rev_app_distr. simpl rev. simpl app.
      rewrite firstn_100_cons, firstn_99_of_100. reflexivity.
    + rewrite app_nil_r. reflexivity.
Qed.

(** X4.  The nearby hook returns the alerts of the stream that lie within
    the radius, newest first, cut to the 100 most recent; so it never holds
    an alert that the stream did not deliver. *)
Theorem nearby_alerts_most_recent_first
    (latitude0 longitude0 radiusKm : R) (incoming : list SOSAlert) :
  useNearbySOSAlerts latitude0 longitude0 radiusKm incoming =
  firstn 100
    (rev (filter (inRadius latitude0 longitude0 radiusKm) incoming)) /\
  (forall a, In a (useNearbySOSAlerts latitude0 longitude0 radiusKm incoming)
             -> In a incoming).
Proof.
  split; [apply useNearbySOSAlerts_filter |].
  intros a Ha. rewrite useNearbySOSAlerts_filter in Ha.
  assert (In a (rev (filter (inRadius latitude0 longitude0 radiusKm) incoming)))
    as Hin.
  { rewrite <- (firstn_skipn 100 (rev _)). apply in_or_app. left. exact Ha. }
  apply in_rev, filter_In in Hin. apply Hin.
Qed.

Lemma decodeAll_app (ms ms' : list (string * Incoming)) :
  decodeAll (ms ++ ms') = decodeAll ms ++ decodeAll ms'.
Proof.
  induction ms as [| m rest IH]; simpl; [reflexivity |].
  destruct (decode m); rewrite IH; reflexivity.
Qed.

Lemma receive_snoc {Client : Type}
    (onAlert : option (SOSAlert -> Client -> Client))
    (onError : option (Client -> Client))
    (ms : list (string * Incoming)) (m : string * Incoming)
    (st : list SOSAlert * Client) :
  receive onAlert onError (ms ++ [m]) st =
  onMessage onAlert onError m (receive onAlert onError ms st).
Proof. unfold receive. rewrite fold_left_app. reflexivity. Qed.

Lemma socket_alerts_generic {Client : Type}
    (onAlert : option (SOSAlert -> Client -> Client))
    (onError : option (Client -> Client))
    (ms : list (string * Incoming)) (c : Client) :
  fst (receive onAlert onError ms ([], c)) = firstn 100 (rev (decodeAll ms)).
Proof.
  induction ms as [| m rest IH] using rev_ind.
  - reflexivity.
  - rewrite receive_snoc, decodeAll_app. simpl decodeAll.
    unfold onMessage, decode.
    destruct (snd m) as [| | fields]; simpl fst.
    + rewrite app_nil_r. exact IH.
    + rewrite app_nil_r. exact IH.
    + rewrite IH, rev_app_distr. simpl rev. simpl app.
      unfold slice99. rewrite firstn_100_cons, firstn_99_of_100. reflexivity.
Qed.

Lemma nearby_over_socket (latitude0 longitude0 radiusKm : R)
    (ms : list (string * Incoming)) :
  snd (nearbyOverSocket latitude0 longitude0 radiusKm ms) =
  useNearbySOSAlerts latitude0 longitude0 radiusKm (decodeAll ms).
Proof.
  unfold nearbyOverSocket.
  induction ms as [| m rest IH] using rev_ind.
  - reflexivity.
  - rewrite receive_snoc, decodeAll_app. simpl decodeAll.
    unfold useNearbySOSAlerts in *. rewrite fold_left_app.
    unfold onMessage, decode.
    destruct (snd m) as [| | fields]; simpl; rewrite IH; reflexivity.
Qed.

Lemma stamped_timestamp (now : string) (fields : SOSAlert) :
  now <> EmptyString -> timestamp (stamped now fields) <> EmptyString.
Proof.
  intros Hnow. unfold stamped.
  destruct (timestamp fields) eqn:Ht; simpl; [exact Hnow |].
  rewrite Ht. discriminate.
Qed.

Lemma decodeAll_In (ms : list (string * Incoming)) (a : SOSAlert) :
  In a (decodeAll ms) ->
  exists now fields, In (now, AlertData fields) ms /\ a = stamped now fields.
Proof.
  induction ms as [| [now inc] rest IH]; simpl; [intros [] |].
  unfold decode. simpl.
  destruct inc as [| | fields].
  - intros H. destruct (IH H) as [n [f [Hin Ha]]]. exists n, f. auto.
  - intros H. destruct (IH H) as [n [f [Hin Ha]]]. exists n, f. auto.
  - intros [<- | H].
    + exists now, fields. auto.
    + destruct (IH H) as [n [f [Hin Ha]]]. exists n, f. auto.
Qed.


(** *** Subscriptions *)

Lemma existsb_eqb_In (c : string) (l : list string) :
  existsb (String.eqb c) l = true <-> In c l.
Proof.
  rewrite existsb_exists. split.
  - intros [x [Hx He]]. apply String.eqb_eq in He. subst. exact Hx.
  - intros H. exists c. split; [exact H | apply String.eqb_refl].
Qed.

Lemma setAdd_In (c x : string) (l : list string) :
  In x (setAdd c l) <-> x = c \/ In x l.
Proof.
  unfold setAdd. destruct (existsb (String.eqb c) l) eqn:He.
  - apply existsb_eqb_In in He. split; [auto |].
    intros [-> | H]; assumption.
  - rewrite in_app_iff. simpl. intuition.
Qed.

Lemma setAdd_NoDup (c : string) (l : list string) :
  NoDup l -> NoDup (setAdd c l).
Proof.
  intros Hl. unfold setAdd. destruct (existsb (String.eqb c) l) eqn:He.
  - exact Hl.
  - assert (~ In c l) as Hn.
    { intros Hin. apply existsb_eqb_In in Hin. congruence. }
    apply NoDup_rev in Hl. rewrite <- (rev_involutive (l ++ [c])).
    apply NoDup_rev. rewrite rev_app_distr. simpl.
    constructor; [| exact Hl]. intros Hin. apply Hn, in_rev, Hin.
Qed.

Lemma setDelete_In (c x : string) (l : list string) :
  In x (setDelete c l) <-> In x l /\ x <> c.
Proof.
  unfold setDelete. rewrite filter_In, negb_true_iff.
  split; intros [H1 H2]; (split; [exact H1 |]).
  - intros ->. rewrite String.eqb_refl in H2. discriminate.
  - apply String.eqb_neq. exact H2.
Qed.

Lemma wanted_app (c : string) (ops ops' : list ChannelOp) (b : bool) :
  wanted c (ops ++ ops') b = wanted c ops' (wanted c ops b).
Proof.
  revert b. induction ops as [| op rest IH]; intros b; simpl; [reflexivity |].
  destruct op; apply IH.
Qed.

Lemma runOps_snoc (ops : list ChannelOp) (op : ChannelOp) :
  runOps (ops ++ [op]) = applyOp (runOps ops) op.
Proof. unfold runOps. rewrite fold_left_app. reflexivity. Qed.

Lemma subscriptions_tracked (ops : list ChannelOp) :
  NoDup (subscriptions (runOps ops)) /\
  forall c, In c (subscriptions (runOps ops)) <-> wanted c ops false = true.
Proof.
  induction ops as [| op rest [IHnd IHin]] using rev_ind.
  - split; [constructor |]. intros c. simpl. split; [intros [] | discriminate].
  - rewrite runOps_snoc. split.
    + destruct op as [live c | live c |]; simpl.
      * apply setAdd_NoDup, IHnd.
      * apply NoDup_filter, IHnd.
      * exact IHnd.
    + intros x. rewrite wanted_app.
      destruct op as [live c | live c |]; simpl.
      * rewrite setAdd_In, IHin.
        destruct (String.eqb c x) eqn:He.
        -- apply String.eqb_eq in He. subst. tauto.
        -- apply String.eqb_neq in He. split; [intros [-> | H] | ]; tauto.
      * rewrite setDelete_In, IHin.
        destruct (String.eqb c x) eqn:He.
        -- apply String.eqb_eq in He. subst. split; [tauto | discriminate].
        -- apply String.eqb_neq in He. split; [tauto |].
           intros H. split; [exact H | intros ->; apply He; reflexivity].
      * apply IHin.
Qed.

(** X6.  After any sequence of [subscribe], [unsubscribe] and socket
    openings, connected or not, the hook remembers each channel at most
    once, and exactly the channels whose last request was a subscription;
    the next opening of the socket sends one subscribe message for each of
    them and nothing else. *)
Theorem reopen_resubscribes_wanted_channels (ops : list ChannelOp) :
  let st := runOps ops in
  NoDup (subscriptions st) /\
  (forall c, In c (subscriptions st) <-> wanted c ops false = true) /\
  exists batch,
    sent (runOps (ops ++ [Open])) = sent st ++ batch /\
    NoDup batch /\
    (forall c, In (subscribeAction, c) batch <-> wanted c ops false = true) /\
    (forall c, ~ In (unsubscribeAction, c) batch).
Proof.
  intros st. destruct (subscriptions_tracked ops) as [Hnd Hin].
  split; [exact Hnd |]. split; [exact Hin |].
  exists (map (fun c => (subscribeAction, c)) (subscriptions st)).
  split; [rewrite runOps_snoc; reflexivity |].
  split.
  { apply Finite.Injective_map_NoDup; [| exact Hnd].
    intros x y Heq. inversion Heq. reflexivity. }
  split.
  - intros c. rewrite <- Hin, in_map_iff. split.
    + intros [x [Hx Hxin]]. inversion Hx. subst. exact Hxin.
    + intros H. exists c. split; [reflexivity | exact H].
  - intros c Hc. apply in_map_iff in Hc. destruct Hc as [x [Hx _]].
    discriminate.
Qed.

End SOSSocketHookFacts.

(** ** The feed records and the dashboard's refresh *)

Module DisasterDataFacts.
Import UsgsService UsgsServiceFacts DisasterData NumberFacts.
Local Open Scope Q_scope.

Lemma floor_between (a b : Z) (x : Q) :
  inject_Z a <= x -> x < inject_Z b -> (a <= Qfloor x < b)%Z.
Proof.
  intros Ha Hb. split.
  - rewrite <- (Qfloor_Z a). apply Qfloor_resp_le. exact Ha.
  - rewrite Zlt_Qlt. eapply Qle_lt_trans; [apply Qfloor_le | exact Hb].
Qed.

Lemma estimateAffected_range (m rnd : Q) :
  0 <= rnd -> rnd < 1 ->
  (fst (affectedRange (mapSeverity m)) <= estimateAffected m rnd
   < snd (affectedRange (mapSeverity m)))%Z.
Proof.
  intros H0 H1. unfold estimateAffected, mapSeverity.
  destruct (Qle_bool 7 m); [| destruct (Qle_bool (11 # 2) m);
                              [| destruct (Qle_bool 4 m)]];
    cbn [affectedRange fst snd]; apply floor_between;
    unfold inject_Z; Lqa.lra.
Qed.

Section Feed.

Variable toFixed1 : Q -> string.
Variable toISOString : Z -> string.
Variable random : nat -> Q.

Let toDisaster := toDisaster toFixed1 toISOString random.
Let mapFrom := mapFrom toFixed1 toISOString random.
Let fetchBody := fetchBody toFixed1 toISOString random.
Let fetchUSGSEarthquakes := fetchUSGSEarthquakes toFixed1 toISOString random.

Lemma toDisaster_fields (i : nat) (f : USGSFeature) (d : UsgsService.Disaster) :
  toDisaster i f = Ok d ->
  recordOf toISOString f d /\
  UsgsService.affectedPopulation d
  = estimateAffected (match UsgsService.magnitude d with
                      | Some m => m | None => 0 end) (random (2 * i)) /\
  UsgsService.deployedTeams d = (Qfloor (random (2 * i + 1) * 20) + 2)%Z /\
  UsgsService.status d
  = (if severityActive (UsgsService.severity d) then active else monitoring).
Proof.
  unfold toDisaster, UsgsService.toDisaster, recordOf.
  destruct (geometry f) as [c |]; simpl; [| discriminate].
  destruct (properties f) as [p |]; simpl; [| discriminate].
  destruct (time p) as [t |] eqn:Ht; simpl;
    [| destruct (mag p); discriminate].
  destruct (mag p) as [m |] eqn:Hm; simpl; [| discriminate].
  intros H. inversion H; subst; clear H. simpl.
  split; [| repeat split; reflexivity].
  exists p, c, m, t. repeat split; try reflexivity; try assumption.
  - destruct (Z.eqb (tsunamiFlag p) 0) eqn:Hz; simpl.
    + intros Hd. discriminate Hd.
    + intros _. apply Z.eqb_neq. exact Hz.
  - destruct (Z.eqb (tsunamiFlag p) 0) eqn:Hz; simpl; [| reflexivity].
    apply Z.eqb_eq in Hz. intros Hn. contradiction.
  - destruct (place p) as [[| a rest] |]; auto.
    intros ->. auto.
  - intros [Hp | [Hp | Hp]]; rewrite Hp; reflexivity.
Qed.

Lemma mapFrom_fields (fs : list USGSFeature) :
  forall (i : nat) (ds : list UsgsService.Disaster),
    mapFrom i fs = Ok ds ->
    Forall2 (recordOf toISOString) fs ds /\
    forall d, In d ds -> exists j f, toDisaster j f = Ok d.
Proof.
  induction fs as [| f rest IH]; intros i ds H.
  - inversion H; subst. split; [constructor | intros d []].
  - unfold mapFrom in H. simpl in H. fold toDisaster in H.
    fold (mapFrom (S i) rest) in H.
    destruct (toDisaster i f) as [d |] eqn:Hd; simpl in H; [| discriminate].
    destruct (mapFrom (S i) rest) as [ds' |] eqn:Hrest; simpl in H;
      [| discriminate].
    inversion H; subst; clear H.
    destruct (IH _ _ Hrest) as [Hall Hsrc].
    split.
    + constructor; [apply (toDisaster_fields i f d Hd) | exact Hall].
    + intros x [<- | Hx]; [exists i, f; exact Hd | apply Hsrc, Hx].
Qed.

(** Either nothing, or the mapping of the first 15 features. *)
Lemma fetch_shape (net : Fetched) :
  fetchUSGSEarthquakes net = [] \/
  exists res fs,
    net = Resolved res /\ ok res = true /\ json res = Some (Some fs) /\
    mapFrom 0 (firstn 15 fs) = Ok (fetchUSGSEarthquakes net).
Proof.
  unfold fetchUSGSEarthquakes, UsgsService.fetchUSGSEarthquakes.
  fold fetchBody.
  destruct (fetchBody net) as [ds | e] eqn:Hb; [| left; reflexivity].
  right. revert Hb. unfold fetchBody, UsgsService.fetchBody.
  destruct net as [| res]; [discriminate |].
  destruct (ok res) eqn:Hok; cbn [negb]; [| discriminate].
  destruct (json res) as [[fs |] |] eqn:Hj; cbn [bind orThrow];
    try discriminate.
  intros Hm. exists res, fs.
  split; [reflexivity |]. split; [assumption || reflexivity |].
  split; [assumption || reflexivity |]. exact Hm.
Qed.

Lemma fetched_from_toDisaster (net : Fetched) (d : UsgsService.Disaster) :
  In d (fetchUSGSEarthquakes net) -> exists j f, toDisaster j f = Ok d.
Proof.
  intros Hd. destruct (fetch_shape net) as [Hnil | [res [fs [_ [_ [_ Hm]]]]]].
  - rewrite Hnil in Hd. destruct Hd.
  - apply mapFrom_fields in Hm. destruct Hm as [_ Hsrc]. apply Hsrc, Hd.
Qed.

End Feed.

Lemma prefix_append (s t : string) : String.prefix s (String.append s t) = true.
Proof.
  induction s as [| a s IH]; simpl.
  - destruct t; reflexivity.
  - destruct (Ascii.ascii_dec a a) as [_ | Hne]; [exact IH | contradiction].
Qed.

Lemma recordOf_isUsgs (toISOString : Z -> string)
    (f : USGSFeature) (d : UsgsService.Disaster) :
  recordOf toISOString f d -> isUsgs (ofUsgs d) = true.
Proof.
  intros [p [c [m [t [_ [_ [_ [_ [Hid _]]]]]]]]].
  unfold isUsgs, ofUsgs. simpl. rewrite Hid. apply prefix_append.
Qed.

Lemma fetched_are_usgs
    (toFixed1 : Q -> string) (toISOString : Z -> string) (random : nat -> Q)
    (net : Fetched) :
  Forall (fun d => isUsgs d = true)
         (map ofUsgs (fetchUSGSEarthquakes toFixed1 toISOString random net)).
Proof.
  apply Forall_forall. intros d Hd.
  apply in_map_iff in Hd. destruct Hd as [u [<- Hu]].
  destruct (fetched_from_toDisaster _ _ _ _ _ Hu) as [j [f Hj]].
  apply (recordOf_isUsgs toISOString f).
  apply (toDisaster_fields _ _ _ j f u Hj).
Qed.

Lemma filter_all {X : Type} (p : X -> bool) (l : list X) :
  Forall (fun x => p x = true) l -> filter p l = l.
Proof.
  induction 1 as [| x l Hx Hl IH]; simpl; [reflexivity |].
  rewrite Hx, IH. reflexivity.
Qed.

Lemma filter_none {X : Type} (p : X -> bool) (l : list X) :
  Forall (fun x => p x = true) l -> filter (fun x => negb (p x)) l = [].
Proof.
  induction 1 as [| x l Hx Hl IH]; simpl; [reflexivity |].
  rewrite Hx. exact IH.
Qed.

Lemma filter_opposite {X : Type} (p : X -> bool) (l : list X) :
  filter p (filter (fun x => negb (p x)) l) = [].
Proof.
  induction l as [| x l IH]; simpl; [reflexivity |].
  destruct (p x) eqn:Hp; simpl; [exact IH |]. rewrite Hp. exact IH.
Qed.

Lemma filter_twice {X : Type} (p : X -> bool) (l : list X) :
  filter p (filter p l) = filter p l.
Proof.
  induction l as [| x l IH]; simpl; [reflexivity |].
  destruct (p x) eqn:Hp; simpl; [rewrite Hp, IH; reflexivity | exact IH].
Qed.

Lemma replaceQuakes_parts (quakes prev : list Disaster) :
  Forall (fun d => isUsgs d = true) quakes ->
  filter isUsgs (replaceQuakes quakes prev) = quakes /\
  filter (fun d => negb (isUsgs d)) (replaceQuakes quakes prev)
  = filter (fun d => negb (isUsgs d)) prev.
Proof.
  intros Hq. unfold replaceQuakes. rewrite !filter_app. split.
  - rewrite filter_opposite, (filter_all _ _ Hq). reflexivity.
  - rewrite filter_twice, (filter_none _ _ Hq), app_nil_r. reflexivity.
Qed.

Lemma replaceQuakes_same_others (quakes l l' : list Disaster) :
  filter (fun d => negb (isUsgs d)) l = filter (fun d => negb (isUsgs d)) l' ->
  replaceQuakes quakes l = replaceQuakes quakes l'.
Proof. intros H. unfold replaceQuakes. rewrite H. reflexivity. Qed.

Lemma fetched_at_most_15
    (toFixed1 : Q -> string) (toISOString : Z -> string) (random : nat -> Q)
    (net : Fetched) :
  (length (fetchUSGSEarthquakes toFixed1 toISOString random net) <= 15)%nat.
Proof.
  destruct (fetch_shape toFixed1 toISOString random net)
    as [-> | [res [fs [_ [_ [_ Hm]]]]]]; [simpl; lia |].
  apply mapFrom_ok in Hm. destruct Hm as [Hlen _].
  rewrite Hlen, length_firstn. apply Nat.le_min_l.
Qed.

(** X7.  When the feed answers with well-formed features, the result lists
    the first 15 of them in their order, one record each: id ["usgs-"]
    followed by the feature's id, the title as name, longitude and latitude
    taken from the first and second coordinate, the magnitude and its
    severity, type tsunami exactly when the tsunami flag is not 0, and
    location ["Unknown"] when the place is missing or empty. *)
Theorem fetched_records_follow_features
    (toFixed1 : Q -> string) (toISOString : Z -> string) (random : nat -> Q)
    (res : Response) (fs : list USGSFeature) :
  ok res = true ->
  json res = Some (Some fs) ->
  forallb wellFormed (firstn 15 fs) = true ->
  Forall2 (recordOf toISOString) (firstn 15 fs)
          (fetchUSGSEarthquakes toFixed1 toISOString random (Resolved res)).
Proof.
  intros Hok Hj Hwf.
  destruct (mapFrom_complete toFixed1 toISOString random _ 0%nat Hwf)
    as [ds Hds].
  assert (fetchBody toFixed1 toISOString random (Resolved res) = Ok ds) as Hb.
  { unfold fetchBody. rewrite Hok, Hj. cbn [negb bind orThrow]. exact Hds. }
  rewrite (fetch_returned _ _ _ _ _ Hb).
  apply (mapFrom_fields toFixed1 toISOString random _ _ _ Hds).
Qed.

Lemma fetched_records_follow_features_witness :
  Forall2 (recordOf (fun _ => "1970"%string))
          (firstn 15 [sampleFeature 6; sampleFeature 3])
          (sampleFetch [sampleFeature 6; sampleFeature 3]).
Proof.
  apply (fetched_records_follow_features
           (fun _ => "0.0"%string) (fun _ => "1970"%string) (fun _ => 1 # 2)
           (mkResponse true 200 (Some (Some [sampleFeature 6; sampleFeature 3])))
           [sampleFeature 6; sampleFeature 3]);
    reflexivity.
Defined.

(** X8.  Provided [Math.random] draws from [0, 1), every fetched record has
    between 2 and 21 deployed teams and an affected population within the
    bounds of its severity, both included: 100,000 and 600,000 for critical,
    10,000 and 60,000 for high, 1,000 and 11,000 for moderate, 100 and 2,100
    for low. *)
Theorem fetched_counts_in_range
    (toFixed1 : Q -> string) (toISOString : Z -> string) (random : nat -> Q)
    (net : Fetched) :
  (forall i, 0 <= random i /\ random i < 1) ->
  Forall (fun d =>
            (2 <= UsgsService.deployedTeams d <= 21)%Z /\
            (fst (affectedRange (UsgsService.severity d))
             <= UsgsService.affectedPopulation d
             <= snd (affectedRange (UsgsService.severity d)))%Z)
         (fetchUSGSEarthquakes toFixed1 toISOString random net).
Proof.
  intros Hrandom. apply Forall_forall. intros d Hd.
  destruct (fetched_from_toDisaster _ _ _ _ _ Hd) as [j [f Hj]].
  destruct (toDisaster_fields _ _ _ j f d Hj)
    as [[p [c [m [t Hrec]]]] [Haff [Hteams _]]].
  destruct Hrec as [_ [_ [_ [_ [_ [_ [_ [_ [Hmag [Hsev _]]]]]]]]]].
  split.
  - rewrite Hteams.
    destruct (Hrandom (2 * j + 1)%nat) as [H0 H1].
    assert (0 <= Qfloor (random (2 * j + 1)%nat * 20) < 20)%Z as Hfloor
      by (apply floor_between; unfold inject_Z; Lqa.lra).
    lia.
  - rewrite Haff, Hmag, Hsev.
    destruct (Hrandom (2 * j)%nat) as [H0 H1].
    pose proof (estimateAffected_range m (random (2 * j)%nat) H0 H1).
    lia.
Qed.

Lemma fetched_counts_in_range_witness :
  Forall (fun d =>
            (2 <= UsgsService.deployedTeams d <= 21)%Z /\
            (fst (affectedRange (UsgsService.severity d))
             <= UsgsService.affectedPopulation d
             <= snd (affectedRange (UsgsService.severity d)))%Z)
         (sampleFetch [sampleFeature (72 # 10); sampleFeature 3]).
Proof.
  apply (fetched_counts_in_range
           (fun _ => "0.0"%string) (fun _ => "1970"%string) (fun _ => 1 # 2)).
  intros i. split; unfold Qle, Qlt; simpl; lia.
Defined.

(** X9.  A fetched record is active exactly when its magnitude is at least
    5.5 and monitoring exactly when it is below; none is resolved. *)
Theorem fetched_status_follows_magnitude
    (toFixed1 : Q -> string) (toISOString : Z -> string) (random : nat -> Q)
    (net : Fetched) :
  Forall (fun d =>
            exists m,
              UsgsService.magnitude d = Some m /\
              (UsgsService.status d = active <-> (11 # 2) <= m) /\
              (UsgsService.status d = monitoring <-> m < (11 # 2)) /\
              UsgsService.status d <> UsgsService.resolved)
         (fetchUSGSEarthquakes toFixed1 toISOString random net).
Proof.
  apply Forall_forall. intros d Hd.
  destruct (fetched_from_toDisaster _ _ _ _ _ Hd) as [j [f Hj]].
  destruct (toDisaster_fields _ _ _ j f d Hj)
    as [[p [c [m [t Hrec]]]] [_ [_ Hstatus]]].
  destruct Hrec as [_ [_ [_ [_ [_ [_ [_ [_ [Hmag [Hsev _]]]]]]]]]].
  exists m. split; [exact Hmag |].
  rewrite Hstatus, Hsev. unfold mapSeverity, severityActive.
  destruct (Qle_bool 7 m) eqn:H7;
    [apply Qle_bool_iff in H7 | apply Qle_bool_false in H7];
  (destruct (Qle_bool (11 # 2) m) eqn:H5;
    [apply Qle_bool_iff in H5 | apply Qle_bool_false in H5]);
  (destruct (Qle_bool 4 m) eqn:H4;
    [apply Qle_bool_iff in H4 | apply Qle_bool_false in H4]);
  repeat split; intros; try reflexivity; try discriminate;
  try assumption; try Lqa.lra.
Qed.

(** X10.  After [refreshUSGS] the list holds the entries of the previous
    list whose id does not start with ["usgs-"], in their order, followed by
    the fetched records: the USGS entries of the new list are exactly the
    fetched ones, the other entries are exactly the previous other entries,
    and a later refresh gives the same result as if this one had not taken
    place. *)
Theorem refresh_replaces_usgs_entries
    (toFixed1 : Q -> string) (toISOString : Z -> string) (random : nat -> Q)
    (net : Fetched) (prev : list Disaster) :
  let quakes :=
    map ofUsgs (fetchUSGSEarthquakes toFixed1 toISOString random net) in
  let next := refreshUSGS toFixed1 toISOString random net prev in
  next = filter (fun d => negb (isUsgs d)) prev ++ quakes /\
  filter isUsgs next = quakes /\
  filter (fun d => negb (isUsgs d)) next
  = filter (fun d => negb (isUsgs d)) prev /\
  (length next <= length prev + 15)%nat /\
  forall (random' : nat -> Q) (net' : Fetched),
    refreshUSGS toFixed1 toISOString random' net' next
    = refreshUSGS toFixed1 toISOString random' net' prev.
Proof.
  intros quakes next. subst next. unfold refreshUSGS. fold quakes.
  pose proof (fetched_are_usgs toFixed1 toISOString random net) as Hq.
  destruct (replaceQuakes_parts quakes prev Hq) as [Husgs Hother].
  split; [reflexivity |].
  split; [exact Husgs |]. split; [exact Hother |]. split.
  - unfold replaceQuakes. subst quakes. rewrite length_app, length_map.
    pose proof (filter_length_le (fun d => negb (isUsgs d)) prev).
    pose proof (fetched_at_most_15 toFixed1 toISOString random net).
    lia.
  - intros random' net'. apply replaceQuakes_same_others. exact Hother.
Qed.

(** X11.  When the request to the feed fails, in any of the ways the
    service catches, the refresh removes every earlier USGS entry from the
    list and adds none; the other entries stay. *)
Theorem failed_fetch_drops_usgs_entries
    (toFixed1 : Q -> string) (toISOString : Z -> string) (random : nat -> Q)
    (net : Fetched) (prev : list Disaster) (e : Exn) :
  fetchBody toFixed1 toISOString random net = Throw e ->
  refreshUSGS toFixed1 toISOString random net prev
  = filter (fun d => negb (isUsgs d)) prev /\
  Forall (fun d => isUsgs d = false)
         (refreshUSGS toFixed1 toISOString random net prev).
Proof.
  intros Hthrow.
  assert (refreshUSGS toFixed1 toISOString random net prev
          = filter (fun d => negb (isUsgs d)) prev) as Heq.
  { unfold refreshUSGS, replaceQuakes.
    rewrite (fetch_caught _ _ _ _ _ Hthrow). simpl. apply app_nil_r. }
  split; [exact Heq |]. rewrite Heq.
  apply Forall_forall. intros d Hd. apply filter_In in Hd.
  destruct Hd as [_ Hd]. apply negb_true_iff. exact Hd.
Qed.

Lemma failed_fetch_drops_usgs_entries_witness :
  refreshUSGS (fun _ => "0.0"%string) (fun _ => "1970"%string)
              (fun _ => 1 # 2) Rejected [mockD1; staleQuake]
  = [mockD1].
Proof.
  exact (proj1 (failed_fetch_drops_usgs_entries
                  (fun _ => "0.0"%string) (fun _ => "1970"%string)
                  (fun _ => 1 # 2) Rejected [mockD1; staleQuake]
                  NetworkFailure eq_refl)).
Defined.

End DisasterDataFacts.

(** ** The dispatch panel *)

Module DispatchPanelFacts.
Import DispatchPanel.

Lemma includes_In (t : string) (l : list string) :
  includes t l = true <-> In t l.
Proof. apply SOSSocketHookFacts.existsb_eqb_In. Qed.

Lemma toggle_In (t x : string) (l : list string) :
  In x (handleResourceTypeChange t l) <->
  (x = t /\ ~ In t l) \/ (x <> t /\ In x l).
Proof.
  unfold handleResourceTypeChange.
  destruct (includes t l) eqn:Hi.
  - apply includes_In in Hi.
    rewrite (SOSSocketHookFacts.setDelete_In t x l). split.
    + intros [Hx Hne]. right. tauto.
    + intros [[-> Hn] | [Hne Hx]]; [contradiction | tauto].
  - assert (~ In t l) as Hn.
    { intros Hin. apply includes_In in Hin. congruence. }
    rewrite in_app_iff. simpl. split.
    + intros [Hx | [<- | []]].
      * right. split; [intros ->; contradiction | exact Hx].
      * left. tauto.
    + intros [[-> _] | [_ Hx]]; tauto.
Qed.

Lemma toggle_NoDup (t : string) (l : list string) :
  NoDup l -> NoDup (handleResourceTypeChange t l).
Proof.
  intros Hl. unfold handleResourceTypeChange.
  destruct (includes t l) eqn:Hi.
  - apply NoDup_filter, Hl.
  - assert (~ In t l) as Hn.
    { intros Hin. apply includes_In in Hin. congruence. }
    apply NoDup_rev in Hl. rewrite <- (rev_involutive (l ++ [t])).
    apply NoDup_rev. rewrite rev_app_distr. simpl.
    constructor; [| exact Hl]. intros Hin. apply Hn, in_rev, Hin.
Qed.

Lemma clicked_snoc (types : list string) (t : string) :
  clicked (types ++ [t]) = handleResourceTypeChange t (clicked types).
Proof. unfold clicked. rewrite fold_left_app. reflexivity. Qed.

Lemma clicked_parity (types : list string) :
  NoDup (clicked types) /\
  forall t, In t (clicked types) <->
            Nat.odd (count_occ string_dec types t) = true.
Proof.
  induction types as [| t rest [IHnd IHin]] using rev_ind.
  - split; [constructor |]. intros t. simpl. split; [intros [] | discriminate].
  - rewrite clicked_snoc. split; [apply toggle_NoDup, IHnd |].
    intros x. rewrite toggle_In, count_occ_app. simpl.
    destruct (string_dec t x) as [-> | Hne].
    + rewrite Nat.add_1_r, Nat.odd_succ, <- Nat.negb_odd.
      rewrite IHin.
      destruct (Nat.odd (count_occ string_dec rest x)); simpl; split.
      * intros [[_ Hn] | [Hn _]]; exfalso; apply Hn; reflexivity.
      * discriminate.
      * reflexivity.
      * intros _. left. split; [reflexivity | discriminate].
    + rewrite Nat.add_0_r, <- IHin. split.
      * intros [[-> _] | [_ Hx]]; [exfalso; apply Hne; reflexivity | exact Hx].
      * intros Hx. right. split; [intros ->; apply Hne; reflexivity | exact Hx].
Qed.

(** X12.  After any sequence of clicks on the resource-type check boxes,
    the selection holds each type at most once, and exactly the types
    clicked an odd number of times; a type that is selected anew goes to the
    end of the list; and the request carries the selection as its priority
    list, or no priority list at all when the selection is empty, never an
    empty list. *)
Theorem clicked_types_form_the_priority (types : list string) :
  let selection := clicked types in
  NoDup selection /\
  (forall t, In t selection <->
             Nat.odd (count_occ string_dec types t) = true) /\
  (forall t, ~ In t selection ->
             clicked (types ++ [t]) = selection ++ [t]) /\
  (resourceTypePriority selection = None <-> selection = []) /\
  (forall p, resourceTypePriority selection = Some p ->
             p = selection /\ p <> [] /\ NoDup p).
Proof.
  intros selection. destruct (clicked_parity types) as [Hnd Hin].
  split; [exact Hnd |]. split; [exact Hin |]. split; [| split].
  - intros t Hn. rewrite clicked_snoc. fold selection.
    unfold handleResourceTypeChange.
    destruct (includes t selection) eqn:Hi; [| reflexivity].
    apply includes_In in Hi. contradiction.
  - unfold resourceTypePriority.
    destruct selection as [| x rest]; simpl; split; auto; discriminate.
  - unfold resourceTypePriority. intros p.
    fold selection in Hnd. clearbody selection.
    destruct selection as [| x rest]; simpl; [discriminate |].
    intros Hp. inversion Hp; subst. split; [reflexivity |].
    split; [discriminate | exact Hnd].
Qed.


End DispatchPanelFacts.

(** ** Elapsed-time labels *)

Module ElapsedTimeFacts.
Import ElapsedTime.
Local Open Scope Z_scope.

Lemma getTimeAgo_shown (now date : Z) :
  getTimeAgo now date =
  String.append (showNumber (fst (shown now date)))
                (unitSuffix (snd (shown now date))).
Proof.
  unfold getTimeAgo, shown.
  destruct ((now - date) / 1000 <? 60); [reflexivity |].
  destruct ((now - date) / 1000 <? 3600); reflexivity.
Qed.

(** X14.  For a date that is not in the future, [getTimeAgo] shows a
    number of whole seconds below 60, or of whole minutes from 1 to 59, or
    of whole hours from 1 on: the number times its unit is the elapsed time
    rounded down to that unit. *)
Theorem getTimeAgo_rounds_down (now date : Z) :
  date <= now ->
  let n := fst (shown now date) in
  let u := snd (shown now date) in
  getTimeAgo now date = String.append (showNumber n) (unitSuffix u) /\
  0 <= n /\
  (u <> hoursUnit -> n < 60) /\
  (u <> secondsUnit -> 1 <= n) /\
  n * unitSeconds u <= (now - date) / 1000 < (n + 1) * unitSeconds u.
Proof.
  intros Hle n u. split; [apply getTimeAgo_shown |].
  subst n u. unfold shown.
  set (seconds := (now - date) / 1000).
  assert (0 <= seconds) as Hs by (subst seconds; apply Z.div_pos; lia).
  destruct (seconds <? 60) eqn:H60.
  - apply Z.ltb_lt in H60. simpl.
    split; [lia |]. split; [intros _; lia |].
    split; [intros H; exfalso; apply H; reflexivity | lia].
  - apply Z.ltb_ge in H60.
    destruct (seconds <? 3600) eqn:H3600.
    + apply Z.ltb_lt in H3600. simpl.
      split; [Z.div_mod_to_equations; lia |].
      split; [intros _; Z.div_mod_to_equations; lia |].
      split; [intros _; Z.div_mod_to_equations; lia |].
      Z.div_mod_to_equations; lia.
    + apply Z.ltb_ge in H3600. simpl.
      split; [Z.div_mod_to_equations; lia |].
      split; [intros H; exfalso; apply H; reflexivity |].
      split; [intros _; Z.div_mod_to_equations; lia |].
      Z.div_mod_to_equations; lia.
Qed.

Lemma getTimeAgo_rounds_down_witness :
  getTimeAgo 7325000 0 = "2h ago"%string /\
  getTimeAgo 125000 0 = "2m ago"%string.
Proof.
  split.
  - exact (proj1 (getTimeAgo_rounds_down 7325000 0 ltac:(lia))).
  - exact (proj1 (getTimeAgo_rounds_down 125000 0 ltac:(lia))).
Defined.

(** X15.  From one minute of elapsed time on, the label of the alert feed
    and the label of the assistance panel are the same text; below one
    minute the feed says "just now" where the panel counts seconds. *)
Theorem time_labels_agree_from_one_minute (now date : Z) :
  (60000 <= now - date -> timeAgo now date = getTimeAgo now date) /\
  (0 <= now - date < 60000 ->
   timeAgo now date = "just now"%string /\
   getTimeAgo now date
   = String.append (showNumber ((now - date) / 1000)) "s ago").
Proof.
  unfold timeAgo, getTimeAgo.
  set (x := now - date). split.
  - intros Hx.
    assert ((x / 60000 <? 1) = false) as -> by
      (apply Z.ltb_ge; Z.div_mod_to_equations; lia).
    assert ((x / 1000 <? 60) = false) as -> by
      (apply Z.ltb_ge; Z.div_mod_to_equations; lia).
    assert (x / 1000 / 60 = x / 60000) as -> by
      (Z.div_mod_to_equations; lia).
    assert (x / 1000 / 3600 = x / 60000 / 60) as -> by
      (Z.div_mod_to_equations; lia).
    assert ((x / 60000 <? 60) = (x / 1000 <? 3600)) as ->.
    { destruct (x / 1000 <? 3600) eqn:H.
      - apply Z.ltb_lt in H. apply Z.ltb_lt. Z.div_mod_to_equations; lia.
      - apply Z.ltb_ge in H. apply Z.ltb_ge. Z.div_mod_to_equations; lia. }
    reflexivity.
  - intros [H0 H1].
    assert ((x / 60000 <? 1) = true) as -> by
      (apply Z.ltb_lt; Z.div_mod_to_equations; lia).
    assert ((x / 1000 <? 60) = true) as -> by
      (apply Z.ltb_lt; Z.div_mod_to_equations; lia).
    split; reflexivity.
Qed.

End ElapsedTimeFacts.

(** ** Accepting an offer in the assistance panel *)

Module AssistancePanelFacts.
Import DataModel AssistanceMatcher AssistancePanel.

Lemma markAccepted_unchangedPart (now id : Z) (offers : list AssistanceOffer) :
  map unchangedPart (markAccepted now id offers) = map unchangedPart offers.
Proof.
  unfold markAccepted. rewrite map_map. apply map_ext. intros o.
  destruct (Z.eqb (offerId o) id); reflexivity.
Qed.

Lemma markAccepted_In (now id : Z) (offers : list AssistanceOffer)
    (o' : AssistanceOffer) :
  In o' (markAccepted now id offers) ->
  (offerId o' = id /\ acceptedAt o' = Some now) \/
  (offerId o' <> id /\ In o' offers).
Proof.
  unfold markAccepted. rewrite in_map_iff. intros [o [Ho Hin]].
  destruct (Z.eqb (offerId o) id) eqn:He.
  - left. subst o'. simpl. split; [apply Z.eqb_eq, He | reflexivity].
  - right. subst o'. split; [apply Z.eqb_neq, He | exact Hin].
Qed.

Lemma markAccepted_again (t1 t2 id : Z) (offers : list AssistanceOffer) :
  markAccepted t2 id (markAccepted t1 id offers) = markAccepted t2 id offers.
Proof.
  unfold markAccepted. rewrite map_map. apply map_ext. intros o.
  destruct (Z.eqb (offerId o) id) eqn:He; simpl; rewrite He; reflexivity.
Qed.

(** X16.  Accepting an offer in the panel changes nothing but the
    acceptance time of the offers with that id: the list keeps its length
    and order and every other field; the offers with that id carry the new
    time, an earlier acceptance time being overwritten; the other offers
    are the previous ones.  The "Closest" badge, which only the first offer
    of the list can carry, is gone once that offer is accepted, whatever
    open offers follow it. *)
Theorem markAccepted_touches_only_the_target
    (now id : Z) (offers : list AssistanceOffer) :
  let next := markAccepted now id offers in
  map unchangedPart next = map unchangedPart offers /\
  (forall o', In o' next ->
     (offerId o' = id /\ acceptedAt o' = Some now) \/
     (offerId o' <> id /\ In o' offers)) /\
  (forall o, In o offers -> offerId o <> id -> In o next) /\
  (forall later, markAccepted later id next = markAccepted later id offers) /\
  (forall first rest, offers = first :: rest -> offerId first = id ->
     closestBadge next = None).
Proof.
  intros next. subst next.
  split; [apply markAccepted_unchangedPart |].
  split; [apply markAccepted_In |].
  split; [| split].
  - intros o Hin Hne. unfold markAccepted. apply in_map_iff.
    exists o. split; [| exact Hin].
    apply Z.eqb_neq in Hne. rewrite Hne. reflexivity.
  - intros later. apply markAccepted_again.
  - intros first rest -> Hid. unfold markAccepted, closestBadge. simpl.
    apply Z.eqb_eq in Hid. rewrite Hid. reflexivity.
Qed.

End AssistancePanelFacts.

(** ** The simulated event source *)

Module SimulatedWebSocketFacts.
Import UsgsService DisasterData SimulatedWebSocket.

Lemma sim_id_is_not_usgs (x : string) :
  String.prefix "usgs-" (String.append "sim-" x) = false.
Proof. reflexivity. Qed.

Lemma event_index (counter : nat) :
  (Nat.modulo counter (length SIMULATED_EVENTS) < 5)%nat.
Proof. apply (Nat.mod_upper_bound counter 5). discriminate. Qed.

Lemma event_period (counter : nat) :
  Nat.modulo (counter + 5) (length SIMULATED_EVENTS)
  = Nat.modulo counter (length SIMULATED_EVENTS).
Proof.
  change (length SIMULATED_EVENTS) with 5%nat.
  replace (counter + 5)%nat with (counter + 1 * 5)%nat by lia.
  apply Nat.Div0.mod_add.
Qed.

(** X17.  Every run of the simulated source advances the counter by one
    and emits a disaster together with an alert that refers to it; the
    disaster's id starts with ["sim-"], so no USGS refresh removes it from
    the dashboard list; the alert is a warning when the disaster's severity
    is high and an information otherwise, never critical; and the events
    come round with period 5. *)
Theorem tick_emits_linked_pair (counter : nat) (now : string) (ms1 ms2 : Z) :
  let '(counter', disaster, alert) := tick counter now ms1 ms2 in
  counter' = S counter /\
  disasterId alert = id disaster /\
  alertTimestamp alert = timestamp disaster /\
  isUsgs disaster = false /\
  (forall quakes prev,
     In disaster (replaceQuakes quakes (addDisaster disaster prev))) /\
  (alertKind alert = warningAlert <-> severity disaster = high) /\
  (alertKind alert = infoAlert <-> severity disaster <> high) /\
  (forall now' ms1' ms2',
     let '(_, disaster', alert') := tick (counter + 5) now' ms1' ms2' in
     name disaster' = name disaster /\
     alertMessage alert' = alertMessage alert).
Proof.
  unfold tick.
  assert (forall now' ms1' ms2',
            let '(_, disaster', alert') := tick (counter + 5) now' ms1' ms2' in
            name disaster' = name
              (instantiate
                 (template (nth (Nat.modulo counter (length SIMULATED_EVENTS))
                                SIMULATED_EVENTS noEvent))
                 (String.append "sim-" (ElapsedTime.showNumber ms1)) now) /\
            alertMessage alert' =
            alertText (nth (Nat.modulo counter (length SIMULATED_EVENTS))
                           SIMULATED_EVENTS noEvent)) as Hperiod.
  { intros now' ms1' ms2'. unfold tick. rewrite event_period.
    split; reflexivity. }
  pose proof (event_index counter) as Hidx.
  set (idx := Nat.modulo counter (length SIMULATED_EVENTS)) in *.
  clearbody idx.
  set (event := nth idx SIMULATED_EVENTS noEvent) in *.
  assert (isUsgs (instantiate (template event)
                    (String.append "sim-" (ElapsedTime.showNumber ms1)) now)
          = false) as Hsim by reflexivity.
  split; [reflexivity |]. split; [reflexivity |]. split; [reflexivity |].
  split; [exact Hsim |]. split.
  { intros quakes prev. unfold replaceQuakes, addDisaster.
    apply in_or_app. left. apply filter_In.
    split; [left; reflexivity | rewrite Hsim; reflexivity]. }
  split; [| split; [| exact Hperiod]].
  - cbn [alertKind severity instantiate]. subst event.
    destruct idx as [| [| [| [| [| n]]]]]; try lia; cbn;
      split; intros H; try reflexivity; discriminate H.
  - cbn [alertKind severity instantiate]. subst event.
    destruct idx as [| [| [| [| [| n]]]]]; try lia; cbn;
      split; intros H; try reflexivity; try discriminate;
      try discriminate H; exfalso; apply H; reflexivity.
Qed.

End SimulatedWebSocketFacts.

(** ** The nearby hook at the extremes of its radius *)

Module NearbyRadiusFacts.
Import GeoMath GeoMathFacts SOSSocket SOSSocketHook SOSSocketHookFacts.
Import NumberFacts.
Local Open Scope R_scope.

Lemma filter_inRadius_none (latitude0 longitude0 radiusKm : R)
    (incoming : list SOSAlert) :
  radiusKm < 0 ->
  filter (inRadius latitude0 longitude0 radiusKm) incoming = [].
Proof.
  intros Hneg. induction incoming as [| a rest IH]; simpl; [reflexivity |].
  unfold inRadius at 1. rewrite Rleb_fails; [exact IH |].
  pose proof (calculateDistance_range latitude0 longitude0
                (latitude a) (longitude a)) as [H0 _].
  lra.
Qed.

Lemma inRadius_same_coordinates (latitude0 longitude0 radiusKm : R)
    (a : SOSAlert) :
  0 <= radiusKm -> latitude a = latitude0 -> longitude a = longitude0 ->
  inRadius latitude0 longitude0 radiusKm a = true.
Proof.
  intros Hr Hlat Hlon. unfold inRadius.
  rewrite Hlat, Hlon, calculateDistance_self. apply Rleb_holds, Hr.
Qed.

(** X18.  A negative radius makes the nearby hook discard every alert,
    wherever it is; with a radius of 0 or more an alert that carries the
    very coordinates of the subscription passes the radius test, so that a
    run of such alerts is kept whole, newest first, up to the cap of
    100. *)
Theorem nearby_radius_extremes
    (latitude0 longitude0 radiusKm : R) (incoming : list SOSAlert) :
  (radiusKm < 0 ->
   useNearbySOSAlerts latitude0 longitude0 radiusKm incoming = []) /\
  (0 <= radiusKm ->
   forall a, latitude a = latitude0 -> longitude a = longitude0 ->
             inRadius latitude0 longitude0 radiusKm a = true) /\
  (0 <= radiusKm ->
   Forall (fun a => latitude a = latitude0 /\ longitude a = longitude0)
          incoming ->
   useNearbySOSAlerts latitude0 longitude0 radiusKm incoming
   = firstn 100 (rev incoming)).
Proof.
  split; [| split].
  - intros Hneg. rewrite useNearbySOSAlerts_filter,
      filter_inRadius_none by exact Hneg. reflexivity.
  - intros Hr a Hlat Hlon. apply inRadius_same_coordinates; assumption.
  - intros Hr Hall. rewrite useNearbySOSAlerts_filter. do 2 f_equal.
    induction Hall as [| a rest [Hlat Hlon] _ IH]; simpl; [reflexivity |].
    rewrite inRadius_same_coordinates by assumption.
    rewrite IH. reflexivity.
Qed.

Lemma nearby_radius_extremes_witness :
  let a := mkSOSAlert 1 7 new_sos "Help needed" "radius" 28.7041 77.1025
                      "2026-02-18T10:00:00Z" in
  useNearbySOSAlerts 28.7041 77.1025 (-1) [a] = [] /\
  useNearbySOSAlerts 28.7041 77.1025 0 [a] = firstn 100 (rev [a]).
Proof.
  intros a. split.
  - apply (proj1 (nearby_radius_extremes 28.7041 77.1025 (-1) [a])). lra.
  - apply (proj2 (proj2 (nearby_radius_extremes 28.7041 77.1025 0 [a])));
      [lra | repeat constructor].
Defined.

End NearbyRadiusFacts.
